(** * Document synchronisation adapter (lib/adapters/document-sync-adapter.js)

    A shallow embedding of [DocumentSyncAdapter] and [TextEditorSyncAdapter]:
    the notifications they send over the language client connection, the
    version counter of every synchronised editor, and the registry of
    synchronised editors.

    The connection is a log of the notifications it was asked to send, oldest
    first.  Handlers are state-passing functions over the adapter object that
    return the notifications they sent.  A JavaScript number that holds an
    integer is a [Z] (the version counter stays far below 2^53, where doubles
    count exactly), a JavaScript string is a [string]. *)

From stdpp Require Import base numbers option list strings gmap.

Local Open Scope Z_scope.

(** ** JavaScript values and their equality with a number *)

(** A Number, as far as its equality with an integer goes: an integer (both
    zeros are the integer 0), or any other Number (a fraction, NaN or an
    infinity), which equals no integer under either operator. *)
Inductive JsNumber : Type :=
  | Integer (n : Z)
  | NotInteger.

(** The primitive values. *)
Inductive JsPrimitive : Type :=
  | JsUndefined
  | JsNull
  | JsBoolean (b : bool)
  | JsNumeric (x : JsNumber)
  | JsBigInt (z : Z)
  | JsString (s : string)
  | JsSymbol.

(** A value is a primitive or an object.  In a comparison with a number an
    object counts for what [ToPrimitive] makes of it through its [valueOf]
    and [toString]: a primitive (the string "1" for the array [[1]], the
    string "[object Object]" for a plain object), or nothing when the
    conversion throws a TypeError (an object whose own [toString] property is
    not a function, for one). *)
Inductive JsValue : Type :=
  | Primitive (p : JsPrimitive)
  | Object (toPrimitive : option JsPrimitive).

Definition numberEquals (x : JsNumber) (k : Z) : bool :=
  match x with
  | Integer n => n =? k
  | NotInteger => false
  end.

(** [x === k] for a number [k]: [x] is a Number of the same value. *)
Definition strictEqualsNumber (x : JsValue) (k : Z) : bool :=
  match x with
  | Primitive (JsNumeric y) => numberEquals y k
  | _ => false
  end.

(** [ToNumber] on a boolean. *)
Definition toNumber (b : bool) : Z := if b then 1 else 0.

Section LooseEquality.

(** [StringToNumber] of the engine: the Number a string denotes (NaN, which
    is [NotInteger], when it denotes none). *)
Variable StringToNumber : string → JsNumber.

(** [p == k] for a primitive [p] and a number [k]: undefined, null and a
    symbol equal no number; a boolean and a string are converted to a Number
    first; a BigInt is compared by its value. *)
Definition primitiveLooseEqualsNumber (p : JsPrimitive) (k : Z) : bool :=
  match p with
  | JsUndefined | JsNull | JsSymbol => false
  | JsBoolean b => toNumber b =? k
  | JsNumeric y => numberEquals y k
  | JsBigInt z => z =? k
  | JsString s => numberEquals (StringToNumber s) k
  end.

(** [x == k] for a number [k]; an object is converted to a primitive first,
    and there is no result ([None]) when that conversion throws. *)
Definition looseEqualsNumber (x : JsValue) (k : Z) : option bool :=
  match x with
  | Primitive p => Some (primitiveLooseEqualsNumber p k)
  | Object (Some p) => Some (primitiveLooseEqualsNumber p k)
  | Object None => None
  end.

End LooseEquality.

(** ** Protocol constants and types (lib/languageclient) *)

(** Modelled from the spec: the [TextDocumentSyncKind] table of
    lib/languageclient is not among the sources.  The capability is one of
    None, Full and Incremental; the adapter's own comments number them
    "Full (1)" and "Incremental (2)", and None is the protocol's 0. *)
Module TextDocumentSyncKind.
Definition Full : Z := 1.
Definition Incremental : Z := 2.
Definition None : Z := 0.
End TextDocumentSyncKind.

(** Modelled from the spec: the [FileChangeType] table of lib/languageclient is
    not among the sources; a watched file was created, changed or deleted. *)
Module FileChangeType.
Inductive t : Type := Created | Changed | Deleted.
End FileChangeType.

(** Modelled from the spec: the [ServerCapabilities] type of lib/languageclient
    is not among the sources.  Of the capabilities a server declares, the
    adapter reads [textDocumentSync]; it is whatever value the server sent,
    [undefined] when it sent none. *)
Record ServerCapabilities : Type := {
  textDocumentSync : JsValue
}.

Record Position : Type := { line : nat; character : nat }.
Record LSRange : Type := { range_start : Position; range_end : Position }.

Record TextDocumentItem : Type := {
  item_uri : string;
  item_languageId : string;
  item_version : Z;
  item_text : string
}.

Record VersionedTextDocumentIdentifier : Type := {
  uri : string;
  version : Z
}.

(** A change record; a field that the object literal does not have is [None]. *)
Record TextDocumentContentChangeEvent : Type := {
  range : option LSRange;
  rangeLength : option nat;
  text : string
}.

Record FileEvent : Type := {
  file_uri : string;
  file_type : FileChangeType.t
}.

(** The notifications of [LanguageClientConnection] that the adapter sends,
    each with its parameters. *)
Inductive Notification : Type :=
  | didOpenTextDocument (textDocument : TextDocumentItem)
  | didChangeTextDocument (textDocument : VersionedTextDocumentIdentifier)
                          (contentChanges : list TextDocumentContentChangeEvent)
  | didSaveTextDocument (textDocument_uri : string)
  | didChangeWatchedFiles (changes : list FileEvent)
  | didCloseTextDocument (textDocument_uri : string).

Definition isChange (n : Notification) : bool :=
  match n with didChangeTextDocument _ _ => true | _ => false end.

Definition isClose (n : Notification) : bool :=
  match n with didCloseTextDocument _ => true | _ => false end.

(** ** The host editor (Atom) *)

Record Point : Type := { row : nat; column : nat }.
Record Range : Type := { start : Point; end_ : Point }.

(** One edit of a change batch ([atom$TextEditEvent]). *)
Record TextEditEvent : Type := {
  oldRange : Range;
  newRange : Range;
  oldText : string;
  newText : string
}.

(** The batch a buffer delivers when it has stopped changing. *)
Record DidStopChangingEvent : Type := {
  changes : list TextEditEvent
}.

Definition EditorId : Type := positive.

Record Grammar : Type := { name : string }.

(** What the adapter reads from an [atom$TextEditor], and the identity of the
    editor object.  The host changes the rest of the record over time; a
    handler is given the editor as it is when the handler runs. *)
Record TextEditor : Type := {
  id : EditorId;
  getURI : option string;
  getPath : option string;
  getText : string;
  getGrammar : Grammar
}.

(** [String.prototype.toLowerCase] on the ASCII letters. *)
Definition lowerAscii (c : Ascii.ascii) : Ascii.ascii :=
  let n := Ascii.nat_of_ascii c in
  if ((65 <=? n) && (n <=? 90))%nat then Ascii.ascii_of_nat (n + 32) else c.

Fixpoint toLowerCase (s : string) : string :=
  match s with
  | EmptyString => EmptyString
  | String c rest => String (lowerAscii c) (toLowerCase rest)
  end.

(** ** CompositeDisposable (event-kit)

    Either disposed (its [disposed] flag is set and it holds nothing any
    more), or holding disposables in the order they were added.  Every
    operation is guarded by the flag: once disposed, [add] and [remove] do
    nothing, and [dispose] does nothing a second time. *)
Inductive CompositeDisposable (A : Type) : Type :=
  | Disposed
  | Holding (members : list A).
Arguments Disposed {A}.
Arguments Holding {A} members.

Definition disposed {A : Type} (c : CompositeDisposable A) : bool :=
  match c with Disposed => true | Holding _ => false end.

Definition disposables {A : Type} (c : CompositeDisposable A) : list A :=
  match c with Disposed => [] | Holding members => members end.

Definition emptyComposite {A : Type} : CompositeDisposable A := Holding [].

Definition composite_add {A : Type} (ds : list A) (c : CompositeDisposable A)
  : CompositeDisposable A :=
  match c with
  | Disposed => Disposed
  | Holding members => Holding (members ++ ds)
  end.

Definition composite_remove {A : Type} `{EqDecision A} (d : A)
  (c : CompositeDisposable A) : CompositeDisposable A :=
  match c with
  | Disposed => Disposed
  | Holding members =>
      Holding (List.filter (λ x, negb (bool_decide (x = d))) members)
  end.

(** The state of the composite after [dispose]; disposing the members it held
    is left to the caller, who knows what they are. *)
Definition composite_dispose {A : Type} (c : CompositeDisposable A)
  : CompositeDisposable A := Disposed.

(** ** Events of an editor *)

(** A subscription to an editor, named after the event it listens to:
    [onDidChange], [onDidSave] and [onDidDestroy] of the editor and
    [onDidChangeText] of its buffer. *)
Inductive Subscription : Type :=
  | onDidChange
  | onDidChangeText
  | onDidSave
  | onDidDestroy.

#[global] Instance Subscription_eq_dec : EqDecision Subscription.
Proof. solve_decision. Defined.

(** An event of the editor or of its buffer, as delivered to the listeners. *)
Inductive EditorEvent : Type :=
  | DidChange
  | DidChangeText (event : DidStopChangingEvent)
  | DidSave
  | DidDestroy.

Definition listensTo (ev : EditorEvent) (sub : Subscription) : bool :=
  match sub, ev with
  | onDidChange, DidChange => true
  | onDidChangeText, DidChangeText _ => true
  | onDidSave, DidSave => true
  | onDidDestroy, DidDestroy => true
  | _, _ => false
  end.

Definition isDestroy (ev : EditorEvent) : bool :=
  match ev with DidDestroy => true | _ => false end.

(** ** TextEditorSyncAdapter *)

Module TextEditorSyncAdapter.

(** The adapter of one editor.  [_editor] is the identity of the editor it
    refers to.  [_disposable] holds the disposables of its subscriptions, each
    bound to one method: [onDidChange] to [sendFullChanges], [onDidChangeText]
    to [sendIncrementalChanges], [onDidSave] to [didSave] and [onDidDestroy] to
    [didDestroy].  A subscription is live exactly as long as [_disposable]
    holds it: nothing else disposes it. *)
Record t : Type := {
  _disposable : CompositeDisposable Subscription;
  _editor : EditorId;
  _version : Z
}.

Definition set_version (v : Z) (this : t) : t :=
  {| _disposable := _disposable this; _editor := _editor this; _version := v |}.

Definition set_disposable (d : CompositeDisposable Subscription) (this : t) : t :=
  {| _disposable := d; _editor := _editor this; _version := _version this |}.

Section WithConvert.

(** The conversions of lib/convert, which the adapter calls and does not
    define. *)
Variable pathToUri : string → string.
Variable atomRangeToLSRange : Range → LSRange.

(** [Convert.pathToUri(this._editor.getPath() || '')]. *)
Definition getEditorUri (editor : TextEditor) : string :=
  pathToUri (default EmptyString (getPath editor)).

Definition getLanguageId (editor : TextEditor) : string :=
  name (getGrammar editor).

Definition getVersionedTextDocumentIdentifier (editor : TextEditor) (this : t)
  : VersionedTextDocumentIdentifier :=
  {| uri := getEditorUri editor; version := _version this |}.

Definition didOpen (editor : TextEditor) (this : t) : t * list Notification :=
  match getURI editor with
  | None => (this, [])
  | Some _ =>
      (this, [didOpenTextDocument
                {| item_uri := getEditorUri editor;
                   item_languageId := toLowerCase (getLanguageId editor);
                   item_version := _version this;
                   item_text := getText editor |}])
  end.

Definition sendFullChanges (editor : TextEditor) (this : t) : t * list Notification :=
  let this := set_version (_version this + 1) this in
  (this, [didChangeTextDocument
            (getVersionedTextDocumentIdentifier editor this)
            [{| range := None; rangeLength := None; text := getText editor |}]]).

Definition textEditToContentChange (change : TextEditEvent)
  : TextDocumentContentChangeEvent :=
  {| range := Some (atomRangeToLSRange (oldRange change));
     rangeLength := Some (String.length (oldText change));
     text := newText change |}.

Definition sendIncrementalChanges (editor : TextEditor)
  (event : DidStopChangingEvent) (this : t) : t * list Notification :=
  if (0 <? length (changes event))%nat then
    let this := set_version (_version this + 1) this in
    (this, [didChangeTextDocument
              (getVersionedTextDocumentIdentifier editor this)
              (map textEditToContentChange (changes event))])
  else (this, []).

Definition didDestroy (editor : TextEditor) (this : t) : t * list Notification :=
  match getURI editor with
  | None => (this, [])
  | Some _ => (this, [didCloseTextDocument (getEditorUri editor)])
  end.

Definition didSave (editor : TextEditor) (this : t) : t * list Notification :=
  (this, [didSaveTextDocument (getEditorUri editor);
          didChangeWatchedFiles
            [{| file_uri := getEditorUri editor;
                file_type := FileChangeType.Changed |}]]).

Definition dispose (this : t) : t * list Notification :=
  (set_disposable (composite_dispose (_disposable this)) this, []).

(** The subscription that tracks changes, if the kind asks for one. *)
Definition setupChangeTracking (documentSyncKind : Z) : option Subscription :=
  if documentSyncKind =? TextDocumentSyncKind.Full then Some onDidChange
  else if documentSyncKind =? TextDocumentSyncKind.Incremental then Some onDidChangeText
  else None.

(** [new TextEditorSyncAdapter(editor, connection, documentSyncKind)]. *)
Definition new (editor : TextEditor) (documentSyncKind : Z) : t * list Notification :=
  let this := {| _disposable := emptyComposite; _editor := id editor; _version := 1 |} in
  let this :=
    match setupChangeTracking documentSyncKind with
    | Some changeTracking =>
        set_disposable (composite_add [changeTracking] (_disposable this)) this
    | None => this
    end in
  let this :=
    set_disposable (composite_add [onDidSave; onDidDestroy] (_disposable this)) this in
  didOpen editor this.

(** The method a subscription is bound to, called with an event. *)
Definition callListener (editor : TextEditor) (ev : EditorEvent)
  (sub : Subscription) (this : t) : t * list Notification :=
  match sub, ev with
  | onDidChange, DidChange => sendFullChanges editor this
  | onDidChangeText, DidChangeText event => sendIncrementalChanges editor event this
  | onDidSave, DidSave => didSave editor this
  | onDidDestroy, DidDestroy => didDestroy editor this
  | _, _ => (this, [])
  end.

Fixpoint callListeners (editor : TextEditor) (ev : EditorEvent)
  (subs : list Subscription) (this : t) : t * list Notification :=
  match subs with
  | [] => (this, [])
  | sub :: rest =>
      let '(this1, sent1) := callListener editor ev sub this in
      let '(this2, sent2) := callListeners editor ev rest this1 in
      (this2, sent1 ++ sent2)
  end.

(** The subscriptions of the adapter that are live and listen to [ev], in the
    order they were made. *)
Definition listeners (ev : EditorEvent) (this : t) : list Subscription :=
  List.filter (listensTo ev) (disposables (_disposable this)).

(** The editor (or its buffer) emits [ev]: the listeners are called in order. *)
Definition emit (editor : TextEditor) (ev : EditorEvent) (this : t)
  : t * list Notification :=
  callListeners editor ev (listeners ev this) this.

(** What happens to an adapter after it was made: its editor emits an event
    ([editor] is the editor as it is at that moment), or its owner disposes
    it. *)
Inductive Action : Type :=
  | Emits (editor : TextEditor) (ev : EditorEvent)
  | Disposes.

Definition step (a : Action) (this : t) : t * list Notification :=
  match a with
  | Emits editor ev => emit editor ev this
  | Disposes => dispose this
  end.

Fixpoint run (actions : list Action) (this : t) : t * list Notification :=
  match actions with
  | [] => (this, [])
  | a :: rest =>
      let '(this1, sent1) := step a this in
      let '(this2, sent2) := run rest this1 in
      (this2, sent1 ++ sent2)
  end.

End WithConvert.

End TextEditorSyncAdapter.

(** ** DocumentSyncAdapter *)

Module DocumentSyncAdapter.

Section WithEngine.

Variable StringToNumber : string → JsNumber.

(** [textDocumentSync === Incremental || textDocumentSync == Full]: the first
    comparison is strict, the second one loose and evaluated only when the
    first is false.  The result is [None] when the loose comparison throws. *)
Definition canAdapt (serverCapabilities : ServerCapabilities) : option bool :=
  if strictEqualsNumber (textDocumentSync serverCapabilities)
       TextDocumentSyncKind.Incremental
  then Some true
  else looseEqualsNumber StringToNumber (textDocumentSync serverCapabilities)
         TextDocumentSyncKind.Full.

End WithEngine.

(** A disposable held by the adapter: the subscription to the registry of
    text editors, a [TextEditorSyncAdapter] (by reference), or the
    subscription of the teardown closure that [observeTextEditor] made for
    that [TextEditorSyncAdapter]. *)
Inductive Disposable : Type :=
  | textEditorsObserver
  | syncAdapter (ref : nat)
  | destroyHook (ref : nat).

#[global] Instance Disposable_eq_dec : EqDecision Disposable.
Proof. solve_decision. Defined.

(** The adapter object.  [_editors] is keyed by the identity of the editor
    object and holds references into the store of [TextEditorSyncAdapter]s;
    [_connection] is the connection of the [State] below. *)
Record t : Type := {
  _editorSelector : TextEditor → bool;
  _disposable : CompositeDisposable Disposable;
  _documentSyncKind : Z;
  _editors : gmap EditorId nat
}.

(** The adapter together with what it shares with the host: the
    [TextEditorSyncAdapter] objects made so far (a reference is an index, they
    are never removed), the teardown closures still subscribed to their
    editor's destroy event (by the reference of their sync adapter), whether
    the registry of text editors still calls [observeTextEditor], and the
    connection. *)
Record State : Type := {
  this : t;
  syncs : list TextEditorSyncAdapter.t;
  destroyHooks : list nat;
  observing : bool;
  connection : list Notification
}.

Definition set_this (a : t) (st : State) : State :=
  {| this := a; syncs := syncs st; destroyHooks := destroyHooks st;
     observing := observing st; connection := connection st |}.

Definition set_syncs (l : list TextEditorSyncAdapter.t) (st : State) : State :=
  {| this := this st; syncs := l; destroyHooks := destroyHooks st;
     observing := observing st; connection := connection st |}.

Definition set_destroyHooks (l : list nat) (st : State) : State :=
  {| this := this st; syncs := syncs st; destroyHooks := l;
     observing := observing st; connection := connection st |}.

Definition set_observing (b : bool) (st : State) : State :=
  {| this := this st; syncs := syncs st; destroyHooks := destroyHooks st;
     observing := b; connection := connection st |}.

Definition send (sent : list Notification) (st : State) : State :=
  {| this := this st; syncs := syncs st; destroyHooks := destroyHooks st;
     observing := observing st; connection := connection st ++ sent |}.

Definition set_disposable (d : CompositeDisposable Disposable) (a : t) : t :=
  {| _editorSelector := _editorSelector a; _disposable := d;
     _documentSyncKind := _documentSyncKind a; _editors := _editors a |}.

Definition set_editors (m : gmap EditorId nat) (a : t) : t :=
  {| _editorSelector := _editorSelector a; _disposable := _disposable a;
     _documentSyncKind := _documentSyncKind a; _editors := m |}.

(** A listener of an editor's events: a method of a [TextEditorSyncAdapter]
    through one of its subscriptions, or the teardown closure made for it. *)
Inductive Listener : Type :=
  | syncListener (ref : nat) (sub : Subscription)
  | teardown (ref : nat).

Section WithConvert.

Variable pathToUri : string → string.
Variable atomRangeToLSRange : Range → LSRange.

(** [sync.dispose()] on the object behind [ref]. *)
Definition disposeSync (ref : nat) (st : State) : State :=
  match syncs st !! ref with
  | Some sync =>
      let '(sync', sent) := TextEditorSyncAdapter.dispose sync in
      send sent (set_syncs (<[ref := sync']> (syncs st)) st)
  | None => st
  end.

Definition observeTextEditor (editor : TextEditor) (st : State) : State :=
  if negb (bool_decide (is_Some (_editors (this st) !! id editor)))
     && _editorSelector (this st) editor
  then
    let '(sync, sent) :=
      TextEditorSyncAdapter.new pathToUri editor (_documentSyncKind (this st)) in
    let ref := length (syncs st) in
    let st := send sent (set_syncs (syncs st ++ [sync]) st) in
    let st := set_this (set_editors (<[id editor := ref]> (_editors (this st))) (this st)) st in
    let st := set_this (set_disposable
                (composite_add [syncAdapter ref] (_disposable (this st))) (this st)) st in
    let st := set_destroyHooks (destroyHooks st ++ [ref]) st in
    set_this (set_disposable
                (composite_add [destroyHook ref] (_disposable (this st))) (this st)) st
  else st.

(** The teardown closure of [observeTextEditor], called on the destroy event
    of [editor]. *)
Definition runTeardown (editor : TextEditor) (ref : nat) (st : State) : State :=
  let st := set_this (set_editors (delete (id editor) (_editors (this st))) (this st)) st in
  let st := set_this (set_disposable
              (composite_remove (syncAdapter ref) (_disposable (this st))) (this st)) st in
  disposeSync ref st.

(** The listeners of [ev] on [editor]: for every sync adapter of that editor,
    in the order they were made, its own live listeners and then its teardown
    closure if that is still subscribed. *)
Definition listenersOf (editor : TextEditor) (ev : EditorEvent) (st : State)
  : list Listener :=
  concat (imap (λ ref sync,
    if decide (TextEditorSyncAdapter._editor sync = id editor) then
      map (syncListener ref) (TextEditorSyncAdapter.listeners ev sync)
      ++ (if isDestroy ev && bool_decide (ref ∈ destroyHooks st)
          then [teardown ref] else [])
    else []) (syncs st)).

Definition callListener (editor : TextEditor) (ev : EditorEvent)
  (st : State) (l : Listener) : State :=
  match l with
  | syncListener ref sub =>
      match syncs st !! ref with
      | Some sync =>
          let '(sync', sent) :=
            TextEditorSyncAdapter.callListener pathToUri atomRangeToLSRange
              editor ev sub sync in
          send sent (set_syncs (<[ref := sync']> (syncs st)) st)
      | None => st
      end
  | teardown ref => runTeardown editor ref st
  end.

(** [editor] (or its buffer) emits [ev]: the listeners subscribed when the
    event is emitted are all called, in the order they subscribed. *)
Definition emit (editor : TextEditor) (ev : EditorEvent) (st : State) : State :=
  foldl (callListener editor ev) st (listenersOf editor ev st).

Definition disposeMember (st : State) (d : Disposable) : State :=
  match d with
  | textEditorsObserver => set_observing false st
  | syncAdapter ref => disposeSync ref st
  | destroyHook ref =>
      set_destroyHooks (List.filter (λ r, negb (bool_decide (r = ref))) (destroyHooks st)) st
  end.

Definition dispose (st : State) : State :=
  if disposed (_disposable (this st)) then st
  else
    let members := disposables (_disposable (this st)) in
    let st := set_this (set_disposable
                (composite_dispose (_disposable (this st))) (this st)) st in
    foldl disposeMember st members.

(** [new DocumentSyncAdapter(connection, documentSyncKind, editorSelector)]:
    the registry of text editors calls [observeTextEditor] with every editor
    that is open, and goes on calling it with every editor opened later. *)
Definition new (openEditors : list TextEditor) (documentSyncKind : Z)
  (editorSelector : TextEditor → bool) : State :=
  let st :=
    {| this := {| _editorSelector := editorSelector; _disposable := emptyComposite;
                  _documentSyncKind := documentSyncKind; _editors := ∅ |};
       syncs := []; destroyHooks := []; observing := false; connection := [] |} in
  let st := foldl (λ st editor, observeTextEditor editor st) st openEditors in
  let st := set_observing true st in
  set_this (set_disposable
              (composite_add [textEditorsObserver] (_disposable (this st))) (this st)) st.

(** What happens to the adapter after it was made: the host opens an editor,
    [observeTextEditor] is called directly, an editor emits an event, or the
    owner disposes the adapter. *)
Inductive Action : Type :=
  | Opens (editor : TextEditor)
  | Observes (editor : TextEditor)
  | Emits (editor : TextEditor) (ev : EditorEvent)
  | Disposes.

Definition step (st : State) (a : Action) : State :=
  match a with
  | Opens editor => if observing st then observeTextEditor editor st else st
  | Observes editor => observeTextEditor editor st
  | Emits editor ev => emit editor ev st
  | Disposes => dispose st
  end.

Definition run (actions : list Action) (st : State) : State :=
  foldl step st actions.

End WithConvert.

(** The sync adapter behind [ref] belongs to the editor [e] and was not
    disposed. *)
Definition liveOn (st : State) (e : EditorId) (ref : nat) : Prop :=
  ∃ sync, syncs st !! ref = Some sync
          ∧ TextEditorSyncAdapter._editor sync = e
          ∧ disposed (TextEditorSyncAdapter._disposable sync) = false.

(** What holds of the adapter between two calls.  Every sync adapter that was
    not disposed is the one [_editors] has for its editor, still has its
    teardown closure subscribed, and is held by [_disposable] unless that was
    disposed.  While the listeners of a destroy event of the editor [e] are
    being called, the first part is not required of the sync adapters of [e]
    ([skip] is [Some e]). *)
Record consistent (skip : option EditorId) (st : State) : Prop := {
  registered : ∀ ref sync,
    syncs st !! ref = Some sync →
    disposed (TextEditorSyncAdapter._disposable sync) = false →
    Some (TextEditorSyncAdapter._editor sync) ≠ skip →
    _editors (this st) !! TextEditorSyncAdapter._editor sync = Some ref;
  hooked : ∀ ref sync,
    syncs st !! ref = Some sync →
    disposed (TextEditorSyncAdapter._disposable sync) = false →
    ref ∈ destroyHooks st;
  held : ∀ members ref sync,
    _disposable (this st) = Holding members →
    syncs st !! ref = Some sync →
    disposed (TextEditorSyncAdapter._disposable sync) = false →
    syncAdapter ref ∈ members
}.

(** A later store of sync adapters: the same objects, of the same editors,
    and what was disposed stays disposed. *)
Definition laterSyncs (before after : list TextEditorSyncAdapter.t) : Prop :=
  Forall2 (λ s s',
    TextEditorSyncAdapter._editor s' = TextEditorSyncAdapter._editor s
    ∧ (disposed (TextEditorSyncAdapter._disposable s) = true →
       disposed (TextEditorSyncAdapter._disposable s') = true)) before after.

End DocumentSyncAdapter.

(** ** Measures and sample data used by the statements below *)

(** How many change notifications a list of sent notifications holds. *)
Definition changesSent (sent : list Notification) : nat :=
  length (List.filter isChange sent).

(** The subscriptions a [TextEditorSyncAdapter] makes in its constructor. *)
Definition subscriptionsFor (documentSyncKind : Z) : list Subscription :=
  match TextEditorSyncAdapter.setupChangeTracking documentSyncKind with
  | Some changeTracking => [changeTracking]
  | None => []
  end ++ [onDidSave; onDidDestroy].

(** The version a change notification carries. *)
Definition changeVersion (n : Notification) : option Z :=
  match n with
  | didChangeTextDocument textDocument _ => Some (version textDocument)
  | _ => None
  end.

(** The versions of the change notifications of a list of sent notifications,
    in the order they were sent. *)
Definition changeVersions (sent : list Notification) : list Z :=
  omap changeVersion sent.

Definition isOpen (n : Notification) : bool :=
  match n with didOpenTextDocument _ => true | _ => false end.

(** The URIs a notification names. *)
Definition urisOf (n : Notification) : list string :=
  match n with
  | didOpenTextDocument textDocument => [item_uri textDocument]
  | didChangeTextDocument textDocument _ => [uri textDocument]
  | didSaveTextDocument u => [u]
  | didChangeWatchedFiles changes => file_uri <$> changes
  | didCloseTextDocument u => [u]
  end.

(** The sync adapter a listener belongs to. *)
Definition listenerRef (l : DocumentSyncAdapter.Listener) : nat :=
  match l with
  | DocumentSyncAdapter.syncListener ref _ => ref
  | DocumentSyncAdapter.teardown ref => ref
  end.

(** The subscriptions through which a list of listeners calls the sync
    adapter behind [ref], in the order of the list. *)
Definition subscriptionsOf (ref : nat) (ls : list DocumentSyncAdapter.Listener)
  : list Subscription :=
  omap (λ l,
    match l with
    | DocumentSyncAdapter.syncListener r sub =>
        if decide (r = ref) then Some sub else None
    | DocumentSyncAdapter.teardown _ => None
    end) ls.

(** An action of the host or of the owner of the adapter: anything but a
    direct call of [observeTextEditor]. *)
Definition hostDriven (a : DocumentSyncAdapter.Action) : bool :=
  match a with DocumentSyncAdapter.Observes _ => false | _ => true end.

(** The registry of text editors no longer calls the adapter and every sync
    adapter is disposed. *)
Definition quiet (st : DocumentSyncAdapter.State) : Prop :=
  DocumentSyncAdapter.observing st = false
  ∧ ∀ ref sync,
      DocumentSyncAdapter.syncs st !! ref = Some sync →
      disposed (TextEditorSyncAdapter._disposable sync) = true.

(** The adapter still holds its subscription to the registry of text
    editors, or it was disposed and is quiet. *)
Definition anchored (st : DocumentSyncAdapter.State) : Prop :=
  match DocumentSyncAdapter._disposable (DocumentSyncAdapter.this st) with
  | Holding members => DocumentSyncAdapter.textEditorsObserver ∈ members
  | Disposed => quiet st
  end.

(** Every entry of [_editors] refers to a sync adapter of that editor, and to
    one that is not disposed as long as the adapter itself is not. *)
Definition registryBacked (st : DocumentSyncAdapter.State) : Prop :=
  ∀ e ref,
    DocumentSyncAdapter._editors (DocumentSyncAdapter.this st) !! e = Some ref →
    ∃ sync,
      DocumentSyncAdapter.syncs st !! ref = Some sync
      ∧ TextEditorSyncAdapter._editor sync = e
      ∧ (disposed (DocumentSyncAdapter._disposable (DocumentSyncAdapter.this st)) = false →
         disposed (TextEditorSyncAdapter._disposable sync) = false).

Module Sample.

(** Modelled from the spec: lib/convert is not among the sources.  The
    conversions are pure functions handed to the adapter; these two are an
    instance to run it with: a file URI made of the path, and a range with
    rows as lines and columns as characters. *)
Definition pathToUri (path : string) : string := "file://" +:+ path.

Definition atomRangeToLSRange (r : Range) : LSRange :=
  {| range_start := {| line := row (start r); character := column (start r) |};
     range_end := {| line := row (end_ r); character := column (end_ r) |} |}.

(** An editor that was never saved: no URI and no path. *)
Definition untitled : TextEditor :=
  {| id := 1%positive; getURI := None; getPath := None;
     getText := "x"; getGrammar := {| name := "TypeScript" |} |}.

(** An editor of the saved file /a.ts. *)
Definition saved : TextEditor :=
  {| id := 2%positive; getURI := Some "/a.ts"; getPath := Some "/a.ts";
     getText := "let a"; getGrammar := {| name := "TypeScript" |} |}.

(** Typing "x" at the start of the buffer. *)
Definition typedX : TextEditEvent :=
  {| oldRange := {| start := {| row := 0; column := 0 |};
                    end_ := {| row := 0; column := 0 |} |};
     newRange := {| start := {| row := 0; column := 0 |};
                    end_ := {| row := 0; column := 1 |} |};
     oldText := ""; newText := "x" |}.

(** Replacing "let" by "var" at the start of the buffer. *)
Definition letToVar : TextEditEvent :=
  {| oldRange := {| start := {| row := 0; column := 0 |};
                    end_ := {| row := 0; column := 3 |} |};
     newRange := {| start := {| row := 0; column := 0 |};
                    end_ := {| row := 0; column := 3 |} |};
     oldText := "let"; newText := "var" |}.

Definition acceptAll (editor : TextEditor) : bool := true.

End Sample.

(** * Properties *)

Section SyncAdapterFacts.

Variable pathToUri : string → string.
Variable atomRangeToLSRange : Range → LSRange.

Local Abbreviation getEditorUri := (TextEditorSyncAdapter.getEditorUri pathToUri).
Local Abbreviation didOpen := (TextEditorSyncAdapter.didOpen pathToUri).
Local Abbreviation didSave := (TextEditorSyncAdapter.didSave pathToUri).
Local Abbreviation didDestroy := (TextEditorSyncAdapter.didDestroy pathToUri).
Local Abbreviation sendFullChanges := (TextEditorSyncAdapter.sendFullChanges pathToUri).
Local Abbreviation sendIncrementalChanges :=
  (TextEditorSyncAdapter.sendIncrementalChanges pathToUri atomRangeToLSRange).
Local Abbreviation textEditToContentChange :=
  (TextEditorSyncAdapter.textEditToContentChange atomRangeToLSRange).
Local Abbreviation callListener :=
  (TextEditorSyncAdapter.callListener pathToUri atomRangeToLSRange).
Local Abbreviation callListeners :=
  (TextEditorSyncAdapter.callListeners pathToUri atomRangeToLSRange).
Local Abbreviation emit := (TextEditorSyncAdapter.emit pathToUri atomRangeToLSRange).
Local Abbreviation step := (TextEditorSyncAdapter.step pathToUri atomRangeToLSRange).
Local Abbreviation run := (TextEditorSyncAdapter.run pathToUri atomRangeToLSRange).
Local Abbreviation new := (TextEditorSyncAdapter.new pathToUri).
Local Abbreviation dispose := TextEditorSyncAdapter.dispose.
Local Abbreviation _version := TextEditorSyncAdapter._version.
Local Abbreviation _disposable := TextEditorSyncAdapter._disposable.
Local Abbreviation _editor := TextEditorSyncAdapter._editor.

Lemma changesSent_app (a b : list Notification) :
  changesSent (a ++ b) = (changesSent a + changesSent b)%nat.
Proof. unfold changesSent. by rewrite List.filter_app, length_app. Qed.

(** No method called through a subscription touches the subscriptions or the
    editor reference. *)
Lemma callListener_keeps editor ev sub this :
  _disposable (callListener editor ev sub this).1 = _disposable this
  ∧ _editor (callListener editor ev sub this).1 = _editor this.
Proof.
  destruct sub, ev; simpl; auto;
    unfold TextEditorSyncAdapter.sendIncrementalChanges,
      TextEditorSyncAdapter.didDestroy;
    repeat case_match; simpl; auto.
Qed.

(** A method raises the version by the number of change notifications it
    sends. *)
Lemma callListener_version editor ev sub this :
  _version (callListener editor ev sub this).1
  = _version this + Z.of_nat (changesSent (callListener editor ev sub this).2).
Proof.
  destruct sub, ev; simpl;
    unfold TextEditorSyncAdapter.sendIncrementalChanges,
      TextEditorSyncAdapter.didDestroy;
    repeat case_match; unfold changesSent; simpl; lia.
Qed.

Lemma callListeners_keeps editor ev subs : ∀ this,
  _disposable (callListeners editor ev subs this).1 = _disposable this
  ∧ _editor (callListeners editor ev subs this).1 = _editor this.
Proof.
  induction subs as [|sub rest IH]; intros this; simpl; [done|].
  destruct (callListener editor ev sub this) as [this1 sent1] eqn:E1.
  destruct (callListeners editor ev rest this1) as [this2 sent2] eqn:E2.
  simpl. specialize (IH this1). rewrite E2 in IH. simpl in IH.
  pose proof (callListener_keeps editor ev sub this) as K.
  rewrite E1 in K. simpl in K. destruct IH, K. split; congruence.
Qed.

Lemma callListeners_version editor ev subs : ∀ this,
  _version (callListeners editor ev subs this).1
  = _version this + Z.of_nat (changesSent (callListeners editor ev subs this).2).
Proof.
  induction subs as [|sub rest IH]; intros this; simpl; [unfold changesSent; simpl; lia|].
  destruct (callListener editor ev sub this) as [this1 sent1] eqn:E1.
  destruct (callListeners editor ev rest this1) as [this2 sent2] eqn:E2.
  simpl. specialize (IH this1). rewrite E2 in IH. simpl in IH.
  pose proof (callListener_version editor ev sub this) as V.
  rewrite E1 in V. simpl in V. rewrite changesSent_app. lia.
Qed.

Lemma step_version a this :
  _version (step a this).1
  = _version this + Z.of_nat (changesSent (step a this).2).
Proof.
  destruct a as [editor ev|]; simpl.
  - apply callListeners_version.
  - unfold changesSent; simpl; lia.
Qed.

Lemma run_version actions : ∀ this,
  _version (run actions this).1
  = _version this + Z.of_nat (changesSent (run actions this).2).
Proof.
  induction actions as [|a rest IH]; intros this; simpl; [unfold changesSent; simpl; lia|].
  destruct (step a this) as [this1 sent1] eqn:E1.
  destruct (run rest this1) as [this2 sent2] eqn:E2.
  simpl. specialize (IH this1). rewrite E2 in IH. simpl in IH.
  pose proof (step_version a this) as V. rewrite E1 in V. simpl in V.
  rewrite changesSent_app. lia.
Qed.

(** Save and destroy events lead to no change notification. *)
Lemma callListeners_no_change editor ev subs : ∀ this,
  (∀ sub, sub ∈ subs → sub ≠ onDidChange ∧ sub ≠ onDidChangeText) →
  changesSent (callListeners editor ev subs this).2 = 0%nat.
Proof.
  induction subs as [|sub rest IH]; intros this Hsubs; simpl; [done|].
  destruct (callListener editor ev sub this) as [this1 sent1] eqn:E1.
  destruct (callListeners editor ev rest this1) as [this2 sent2] eqn:E2.
  simpl. rewrite changesSent_app.
  assert (changesSent sent1 = 0%nat) as ->.
  { destruct (Hsubs sub) as [H1 H2]; [by left|].
    destruct sub, ev; try done; simpl in E1;
      unfold TextEditorSyncAdapter.didDestroy in E1;
      repeat case_match; by inversion E1. }
  specialize (IH this1). rewrite E2 in IH. apply IH.
  intros sub' Hin. apply Hsubs. by right.
Qed.

Lemma listeners_listen ev this sub :
  sub ∈ TextEditorSyncAdapter.listeners ev this → listensTo ev sub = true.
Proof.
  unfold TextEditorSyncAdapter.listeners. rewrite list_elem_of_In, List.filter_In.
  by intros [_ ?].
Qed.

Lemma emit_no_change editor ev this :
  (∀ event, ev ≠ DidChangeText event) → ev ≠ DidChange →
  changesSent (emit editor ev this).2 = 0%nat.
Proof.
  intros H1 H2. apply callListeners_no_change. intros sub Hin.
  apply listeners_listen in Hin. destruct sub, ev; naive_solver.
Qed.

(** The constructor leaves the adapter at version 1, holding the
    subscriptions of its kind, and sends what [didOpen] sends. *)
Lemma new_state editor documentSyncKind :
  let this := (new editor documentSyncKind).1 in
  _version this = 1
  ∧ _disposable this = Holding (subscriptionsFor documentSyncKind)
  ∧ _editor this = id editor
  ∧ new editor documentSyncKind = didOpen editor this.
Proof.
  unfold TextEditorSyncAdapter.new, subscriptionsFor, TextEditorSyncAdapter.didOpen.
  destruct (TextEditorSyncAdapter.setupChangeTracking documentSyncKind);
    destruct (getURI editor); simpl; auto.
Qed.

(** Later, the adapter still holds the subscriptions it had, or was disposed. *)
Lemma step_disposable a this :
  _disposable (step a this).1 = _disposable this
  ∨ _disposable (step a this).1 = Disposed.
Proof.
  destruct a as [editor ev|]; simpl.
  - left. apply callListeners_keeps.
  - by right.
Qed.

Lemma run_disposable actions : ∀ this,
  _disposable (run actions this).1 = _disposable this
  ∨ _disposable (run actions this).1 = Disposed.
Proof.
  induction actions as [|a rest IH]; intros this; simpl; [by left|].
  destruct (step a this) as [this1 sent1] eqn:E1.
  destruct (run rest this1) as [this2 sent2] eqn:E2.
  simpl. specialize (IH this1). rewrite E2 in IH. simpl in IH.
  pose proof (step_disposable a this) as D. rewrite E1 in D. simpl in D.
  destruct IH as [IH|IH]; [|by right]. rewrite IH. exact D.
Qed.

Lemma run_from_new editor documentSyncKind actions :
  let this := (run actions (new editor documentSyncKind).1).1 in
  _disposable this = Holding (subscriptionsFor documentSyncKind)
  ∨ _disposable this = Disposed.
Proof.
  simpl. destruct (run_disposable actions (new editor documentSyncKind).1) as [H|H];
    [left|by right].
  rewrite H. apply new_state.
Qed.

(** An adapter made by the constructor has at most one listener per event. *)
Lemma listeners_at_most_one documentSyncKind ev this :
  _disposable this = Holding (subscriptionsFor documentSyncKind)
  ∨ _disposable this = Disposed →
  TextEditorSyncAdapter.listeners ev this = []
  ∨ ∃ sub, TextEditorSyncAdapter.listeners ev this = [sub].
Proof.
  unfold TextEditorSyncAdapter.listeners, subscriptionsFor,
    TextEditorSyncAdapter.setupChangeTracking.
  intros [->| ->]; [|by left].
  repeat case_match; simplify_eq; destruct ev; simpl; eauto.
Qed.

Lemma emit_one_listener editor ev this sub :
  TextEditorSyncAdapter.listeners ev this = [sub] →
  emit editor ev this = callListener editor ev sub this.
Proof.
  unfold TextEditorSyncAdapter.emit. intros ->. simpl.
  destruct (callListener editor ev sub this). by rewrite app_nil_r.
Qed.

Lemma callListener_at_most_one_change editor ev sub this :
  (changesSent (callListener editor ev sub this).2 ≤ 1)%nat.
Proof.
  destruct sub, ev; simpl;
    unfold TextEditorSyncAdapter.sendIncrementalChanges,
      TextEditorSyncAdapter.didDestroy;
    repeat case_match; unfold changesSent; simpl; lia.
Qed.

(** C2: the version counter is 1 when the adapter has been made; every step
    raises it by exactly the number of change notifications the step sends,
    so after any run it is 1 plus the number of change notifications sent and
    it never goes down; save and destroy events and [dispose] leave it as it
    is; an adapter made by the constructor sends at most one change
    notification per event, however many edits the event holds.
    [sendFullChanges], and [sendIncrementalChanges] on a batch with an edit,
    raise the version by exactly 1 and send exactly one change notification;
    an adapter made for full synchronisation does so on every change event,
    and one made for incremental synchronisation on every batch with an
    edit, for as long as it is not disposed. *)
Theorem version_counts_change_notifications
  (editor : TextEditor) (documentSyncKind : Z) :
  _version (new editor documentSyncKind).1 = 1
  ∧ changesSent (new editor documentSyncKind).2 = 0%nat
  ∧ (∀ actions,
       let this := (new editor documentSyncKind).1 in
       _version (run actions this).1
       = 1 + Z.of_nat (changesSent (run actions this).2))
  ∧ (∀ a this,
       _version (step a this).1
       = _version this + Z.of_nat (changesSent (step a this).2))
  ∧ (∀ a this, _version this ≤ _version (step a this).1)
  ∧ (∀ editor' this,
       _version (emit editor' DidSave this).1 = _version this
       ∧ _version (emit editor' DidDestroy this).1 = _version this
       ∧ _version (dispose this).1 = _version this)
  ∧ (∀ actions editor' ev,
       let this := (run actions (new editor documentSyncKind).1).1 in
       (changesSent (emit editor' ev this).2 ≤ 1)%nat
       ∧ _version (emit editor' ev this).1 ≤ _version this + 1)
  ∧ (∀ editor' this,
       _version (sendFullChanges editor' this).1 = _version this + 1
       ∧ changesSent (sendFullChanges editor' this).2 = 1%nat)
  ∧ (∀ editor' change rest this,
       _version (sendIncrementalChanges editor'
                   {| changes := change :: rest |} this).1
       = _version this + 1
       ∧ changesSent (sendIncrementalChanges editor'
                        {| changes := change :: rest |} this).2 = 1%nat)
  ∧ (∀ actions editor',
       let this := (run actions (new editor TextDocumentSyncKind.Full).1).1 in
       disposed (_disposable this) = false →
       _version (emit editor' DidChange this).1 = _version this + 1
       ∧ changesSent (emit editor' DidChange this).2 = 1%nat)
  ∧ (∀ actions editor' change rest,
       let this :=
         (run actions (new editor TextDocumentSyncKind.Incremental).1).1 in
       disposed (_disposable this) = false →
       _version (emit editor' (DidChangeText {| changes := change :: rest |}) this).1
       = _version this + 1
       ∧ changesSent
           (emit editor' (DidChangeText {| changes := change :: rest |}) this).2
         = 1%nat).
Proof.
  destruct (new_state editor documentSyncKind) as (Hv & Hd & He & Hnew).
  split_and!.
  - exact Hv.
  - rewrite Hnew. unfold TextEditorSyncAdapter.didOpen. by case_match.
  - intros actions this. subst this. rewrite run_version, Hv. lia.
  - intros a this. apply step_version.
  - intros a this. rewrite step_version. lia.
  - intros editor' this. split_and!.
    + pose proof (callListeners_version editor' DidSave
        (TextEditorSyncAdapter.listeners DidSave this) this) as V.
      fold (emit editor' DidSave this) in V.
      rewrite emit_no_change in V by done. lia.
    + pose proof (callListeners_version editor' DidDestroy
        (TextEditorSyncAdapter.listeners DidDestroy this) this) as V.
      fold (emit editor' DidDestroy this) in V.
      rewrite emit_no_change in V by done. lia.
    + done.
  - intros actions editor' ev this.
    assert ((changesSent (emit editor' ev this).2 ≤ 1)%nat) as Hle.
    { destruct (listeners_at_most_one documentSyncKind ev this) as [E|[sub E]].
      + apply run_from_new.
      + unfold TextEditorSyncAdapter.emit. rewrite E. simpl.
        unfold changesSent. simpl. lia.
      + rewrite (emit_one_listener _ _ _ _ E).
        apply callListener_at_most_one_change. }
    split; [exact Hle|].
    pose proof (callListeners_version editor' ev
      (TextEditorSyncAdapter.listeners ev this) this) as V.
    fold (emit editor' ev this) in V. lia.
  - intros editor' this. by split.
  - intros editor' change rest this. by split.
  - intros actions editor' this Hlive.
    destruct (run_from_new editor TextDocumentSyncKind.Full actions) as [H|H];
      fold this in H; [|by rewrite H in Hlive].
    rewrite (emit_one_listener editor' DidChange this onDidChange);
      [by split|].
    unfold TextEditorSyncAdapter.listeners. by rewrite H.
  - intros actions editor' change rest this Hlive.
    destruct (run_from_new editor TextDocumentSyncKind.Incremental actions)
      as [H|H]; fold this in H; [|by rewrite H in Hlive].
    rewrite (emit_one_listener editor'
               (DidChangeText {| changes := change :: rest |}) this
               onDidChangeText);
      [by split|].
    unfold TextEditorSyncAdapter.listeners. by rewrite H.
Qed.

(** Called with an empty batch, no listener changes or sends anything. *)
Lemma callListeners_empty_batch editor subs this :
  callListeners editor (DidChangeText {| changes := [] |}) subs this = (this, []).
Proof.
  induction subs as [|sub rest IH]; simpl; [done|].
  assert (callListener editor (DidChangeText {| changes := [] |}) sub this
          = (this, [])) as -> by (by destruct sub).
  by rewrite IH.
Qed.

(** C4: a change batch with no edits changes nothing and sends nothing,
    whatever the adapter's state and subscriptions: neither when the batch is
    handed to [sendIncrementalChanges], nor when the buffer emits it. *)
Theorem empty_change_batch_is_dropped
  (editor : TextEditor) (this : TextEditorSyncAdapter.t) :
  sendIncrementalChanges editor {| changes := [] |} this = (this, [])
  ∧ emit editor (DidChangeText {| changes := [] |}) this = (this, []).
Proof.
  split; [done|]. apply callListeners_empty_batch.
Qed.

(** C5: handed a batch with at least one edit, [sendIncrementalChanges]
    raises the version once and sends one change notification whose records
    are, in the order of the edits, one per edit: the converted old range, the
    length of the old text and the new text.  An adapter made for incremental
    synchronisation and not disposed calls it on every batch its buffer
    emits. *)
Theorem incremental_changes_mirror_the_batch
  (editor : TextEditor) (event : DidStopChangingEvent)
  (this : TextEditorSyncAdapter.t) :
  changes event ≠ [] →
  ∃ records : list TextDocumentContentChangeEvent,
    sendIncrementalChanges editor event this
    = (TextEditorSyncAdapter.set_version (_version this + 1) this,
       [didChangeTextDocument
          {| uri := getEditorUri editor; version := _version this + 1 |}
          records])
    ∧ length records = length (changes event)
    ∧ (∀ (i : nat) (change : TextEditEvent),
         changes event !! i = Some change →
         records !! i
         = Some {| range := Some (atomRangeToLSRange (oldRange change));
                   rangeLength := Some (String.length (oldText change));
                   text := newText change |})
    ∧ (∀ editor0 actions,
         let made :=
           (run actions (new editor0 TextDocumentSyncKind.Incremental).1).1 in
         disposed (_disposable made) = false →
         emit editor (DidChangeText event) made
         = sendIncrementalChanges editor event made).
Proof.
  intros Hne. exists (map textEditToContentChange (changes event)). split_and!.
  - unfold TextEditorSyncAdapter.sendIncrementalChanges.
    destruct (changes event); [done|]. reflexivity.
  - apply length_map.
  - intros i change Hi. rewrite list_lookup_fmap, Hi. reflexivity.
  - intros editor0 actions made Hlive.
    destruct (run_from_new editor0 TextDocumentSyncKind.Incremental actions)
      as [H|H]; fold made in H; [|by rewrite H in Hlive].
    apply emit_one_listener with (sub := onDidChangeText).
    unfold TextEditorSyncAdapter.listeners. by rewrite H.
Qed.

(** C6: an adapter made for full synchronisation sends change notifications
    of one shape only: a single record without range and range length whose
    text is the whole text of the editor when the event is handled; it sends
    exactly that, under the next version, on every change event for as long
    as it is not disposed. *)
Theorem full_changes_carry_whole_text
  (editor0 : TextEditor) (actions : list TextEditorSyncAdapter.Action)
  (editor : TextEditor) :
  let this := (run actions (new editor0 TextDocumentSyncKind.Full).1).1 in
  (∀ ev n,
     n ∈ (emit editor ev this).2 → isChange n = true →
     n = didChangeTextDocument
           {| uri := getEditorUri editor; version := _version this + 1 |}
           [{| range := None; rangeLength := None; text := getText editor |}])
  ∧ (disposed (_disposable this) = false →
     emit editor DidChange this = sendFullChanges editor this
     ∧ (emit editor DidChange this).2
       = [didChangeTextDocument
            {| uri := getEditorUri editor; version := _version this + 1 |}
            [{| range := None; rangeLength := None; text := getText editor |}]]).
Proof.
  intros this.
  destruct (run_from_new editor0 TextDocumentSyncKind.Full actions) as [H|H];
    fold this in H.
  - assert (emit editor DidChange this = sendFullChanges editor this) as Hfull.
    { apply emit_one_listener with (sub := onDidChange).
      unfold TextEditorSyncAdapter.listeners. by rewrite H. }
    split.
    + intros ev n Hin Hchange. destruct ev.
      * rewrite Hfull in Hin. simpl in Hin. by apply list_elem_of_singleton in Hin.
      * unfold TextEditorSyncAdapter.emit, TextEditorSyncAdapter.listeners in Hin.
        rewrite H in Hin. simpl in Hin. by apply elem_of_nil in Hin.
      * unfold TextEditorSyncAdapter.emit, TextEditorSyncAdapter.listeners in Hin.
        rewrite H in Hin. simpl in Hin.
        repeat (apply elem_of_cons in Hin as [->|Hin]; [done|]).
        by apply elem_of_nil in Hin.
      * unfold TextEditorSyncAdapter.emit, TextEditorSyncAdapter.listeners in Hin.
        rewrite H in Hin. simpl in Hin.
        unfold TextEditorSyncAdapter.didDestroy in Hin.
        destruct (getURI editor); simpl in Hin;
          repeat (apply elem_of_cons in Hin as [->|Hin]; [done|]);
          by apply elem_of_nil in Hin.
    + intros _. by rewrite Hfull.
  - split.
    + intros ev n Hin.
      unfold TextEditorSyncAdapter.emit, TextEditorSyncAdapter.listeners in Hin.
      rewrite H in Hin. by apply elem_of_nil in Hin.
    + intros Hlive. by rewrite H in Hlive.
Qed.

(** C7: [didSave] sends exactly two notifications, the save notification
    first and the watched-files notification second, both with the URI of the
    editor and the second with the change type Changed, and leaves the
    adapter as it is; an adapter made by the constructor and not disposed
    calls it on every save event, whatever its kind. *)
Theorem save_then_watched_file_change
  (editor : TextEditor) (this : TextEditorSyncAdapter.t) :
  didSave editor this
  = (this,
     [didSaveTextDocument (getEditorUri editor);
      didChangeWatchedFiles
        [{| file_uri := getEditorUri editor;
            file_type := FileChangeType.Changed |}]])
  ∧ (∀ editor0 documentSyncKind actions,
       let made := (run actions (new editor0 documentSyncKind).1).1 in
       disposed (_disposable made) = false →
       emit editor DidSave made = didSave editor made).
Proof.
  split; [reflexivity|].
  intros editor0 documentSyncKind actions made Hlive.
  destruct (run_from_new editor0 documentSyncKind actions) as [H|H];
    fold made in H; [|by rewrite H in Hlive].
  apply emit_one_listener with (sub := onDidSave).
  unfold TextEditorSyncAdapter.listeners. rewrite H.
  unfold subscriptionsFor, TextEditorSyncAdapter.setupChangeTracking.
  by destruct (documentSyncKind =? TextDocumentSyncKind.Full),
    (documentSyncKind =? TextDocumentSyncKind.Incremental).
Qed.

(** A close notification comes from [didDestroy] on a destroy event of an
    editor that has a URI. *)
Lemma callListeners_close editor ev subs n : ∀ this,
  n ∈ (callListeners editor ev subs this).2 → isClose n = true →
  ev = DidDestroy ∧ is_Some (getURI editor)
  ∧ n = didCloseTextDocument (getEditorUri editor).
Proof.
  induction subs as [|sub rest IH]; intros this; simpl.
  - intros Hin. by apply elem_of_nil in Hin.
  - destruct (callListener editor ev sub this) as [this1 sent1] eqn:E1.
    destruct (callListeners editor ev rest this1) as [this2 sent2] eqn:E2.
    simpl. intros Hin Hclose. apply elem_of_app in Hin as [Hin|Hin].
    + destruct sub, ev; simpl in E1;
        unfold TextEditorSyncAdapter.sendIncrementalChanges,
          TextEditorSyncAdapter.sendFullChanges, TextEditorSyncAdapter.didSave,
          TextEditorSyncAdapter.didDestroy in E1;
        repeat case_match; simplify_eq;
        repeat (apply elem_of_cons in Hin as [->|Hin]; try done);
        try (by apply elem_of_nil in Hin).
    + apply (IH this1); [|done]. by rewrite E2.
Qed.

(** An adapter without change tracking sends no change notification. *)
Lemma run_without_change_tracking actions : ∀ this,
  _disposable this = Holding [onDidSave; onDidDestroy]
  ∨ _disposable this = Disposed →
  changesSent (run actions this).2 = 0%nat.
Proof.
  induction actions as [|a rest IH]; intros this Hd; simpl; [done|].
  destruct (step a this) as [this1 sent1] eqn:E1.
  destruct (run rest this1) as [this2 sent2] eqn:E2.
  simpl. rewrite changesSent_app.
  pose proof (step_disposable a this) as D. rewrite E1 in D. simpl in D.
  specialize (IH this1). rewrite E2 in IH. simpl in IH. rewrite IH.
  - assert (changesSent (step a this).2 = 0%nat) as Hs; [|by rewrite E1 in Hs; simpl in Hs; rewrite Hs].
    destruct a as [editor ev|]; [|done]. simpl.
    apply callListeners_no_change. intros sub Hin.
    unfold TextEditorSyncAdapter.listeners in Hin.
    apply list_elem_of_In, List.filter_In in Hin as [Hin _].
    apply list_elem_of_In in Hin.
    destruct Hd as [Hd|Hd]; rewrite Hd in Hin; simpl in Hin.
    + repeat (apply elem_of_cons in Hin as [->|Hin]; [done|]).
      by apply elem_of_nil in Hin.
    + by apply elem_of_nil in Hin.
  - destruct D as [D|D]; [rewrite D; exact Hd|by right].
Qed.

(** C10: made with a kind that is neither Full nor Incremental, the adapter
    exists at version 1 with the save and destroy subscriptions and no other;
    it sends the open notification of [didOpen], calls [didSave] on a save
    event and [didDestroy] on a destroy event; and whatever happens to it
    later, it sends no change notification and its version stays 1.  For as
    long as it is not disposed, a save event makes it send the save
    notification and then the watched-files notification, and a destroy
    event of an editor that has a URI makes it send the close
    notification. *)
Theorem other_kinds_never_send_changes
  (editor : TextEditor) (documentSyncKind : Z) :
  documentSyncKind ≠ TextDocumentSyncKind.Full →
  documentSyncKind ≠ TextDocumentSyncKind.Incremental →
  let this := (new editor documentSyncKind).1 in
  _version this = 1
  ∧ _disposable this = Holding [onDidSave; onDidDestroy]
  ∧ new editor documentSyncKind = didOpen editor this
  ∧ (∀ u, getURI editor = Some u →
       (new editor documentSyncKind).2
       = [didOpenTextDocument
            {| item_uri := getEditorUri editor;
               item_languageId :=
                 toLowerCase (name (getGrammar editor));
               item_version := 1;
               item_text := getText editor |}])
  ∧ (∀ editor',
       emit editor' DidSave this = didSave editor' this
       ∧ emit editor' DidDestroy this = didDestroy editor' this
       ∧ emit editor' DidChange this = (this, [])
       ∧ ∀ event, emit editor' (DidChangeText event) this = (this, []))
  ∧ (∀ actions,
       changesSent (run actions this).2 = 0%nat
       ∧ _version (run actions this).1 = 1)
  ∧ (∀ actions editor',
       let later := (run actions this).1 in
       disposed (_disposable later) = false →
       (emit editor' DidSave later).2
       = [didSaveTextDocument (getEditorUri editor');
          didChangeWatchedFiles
            [{| file_uri := getEditorUri editor';
                file_type := FileChangeType.Changed |}]]
       ∧ (∀ u, getURI editor' = Some u →
            (emit editor' DidDestroy later).2
            = [didCloseTextDocument (getEditorUri editor')])
       ∧ (getURI editor' = None → (emit editor' DidDestroy later).2 = [])).
Proof.
  intros HF HI this.
  destruct (new_state editor documentSyncKind) as (Hv & Hd & He & Hnew).
  fold this in Hv, Hd, He, Hnew.
  assert (subscriptionsFor documentSyncKind = [onDidSave; onDidDestroy]) as Hsubs.
  { unfold subscriptionsFor, TextEditorSyncAdapter.setupChangeTracking.
    apply Z.eqb_neq in HF, HI. by rewrite HF, HI. }
  rewrite Hsubs in Hd.
  split_and!; try done.
  - intros u Hu. rewrite Hnew. unfold TextEditorSyncAdapter.didOpen.
    by rewrite Hu, Hv.
  - intros editor'. split_and!.
    + apply emit_one_listener with (sub := onDidSave).
      unfold TextEditorSyncAdapter.listeners. by rewrite Hd.
    + apply emit_one_listener with (sub := onDidDestroy).
      unfold TextEditorSyncAdapter.listeners. by rewrite Hd.
    + unfold TextEditorSyncAdapter.emit, TextEditorSyncAdapter.listeners.
      by rewrite Hd.
    + intros event.
      unfold TextEditorSyncAdapter.emit, TextEditorSyncAdapter.listeners.
      by rewrite Hd.
  - intros actions.
    assert (changesSent (run actions this).2 = 0%nat) as H0
      by (apply run_without_change_tracking; by left).
    split; [exact H0|]. rewrite run_version, H0, Hv. lia.
  - intros actions editor' later Hlive.
    destruct (run_disposable actions this) as [H|H]; fold later in H;
      [|by rewrite H in Hlive].
    rewrite Hd in H.
    assert (emit editor' DidSave later = didSave editor' later) as ->.
    { apply emit_one_listener with (sub := onDidSave).
      unfold TextEditorSyncAdapter.listeners. by rewrite H. }
    assert (emit editor' DidDestroy later = didDestroy editor' later) as ->.
    { apply emit_one_listener with (sub := onDidDestroy).
      unfold TextEditorSyncAdapter.listeners. by rewrite H. }
    unfold TextEditorSyncAdapter.didDestroy. split_and!; [done| |].
    + intros u Hu. by rewrite Hu.
    + intros Hu. by rewrite Hu.
Qed.

(** C1: for an editor without URI, [didOpen] and [didDestroy] send nothing,
    but [sendFullChanges], [sendIncrementalChanges] (on a batch with an edit)
    and [didSave] send their notifications all the same, with the URI that
    [pathToUri] makes of the path, or of the empty string when there is no
    path, and the two change methods raise the version.  So the adapter of
    the never saved editor [Sample.untitled] sends nothing when it is made and
    nothing on the destroy event, and sends on a change event and on a save
    event. *)
Theorem unsaved_editor_still_sends_changes_and_saves
  (i : EditorId) (path : option string) (content : string) (grammar : Grammar)
  (this : TextEditorSyncAdapter.t) :
  let editor :=
    {| id := i; getURI := None; getPath := path; getText := content;
       getGrammar := grammar |} in
  let full := (new Sample.untitled TextDocumentSyncKind.Full).1 in
  let incremental := (new Sample.untitled TextDocumentSyncKind.Incremental).1 in
  didOpen editor this = (this, [])
  ∧ didDestroy editor this = (this, [])
  ∧ sendFullChanges editor this
    = (TextEditorSyncAdapter.set_version (_version this + 1) this,
       [didChangeTextDocument
          {| uri := pathToUri (default "" path); version := _version this + 1 |}
          [{| range := None; rangeLength := None; text := content |}]])
  ∧ (∀ change rest,
       sendIncrementalChanges editor {| changes := change :: rest |} this
       = (TextEditorSyncAdapter.set_version (_version this + 1) this,
          [didChangeTextDocument
             {| uri := pathToUri (default "" path); version := _version this + 1 |}
             (map textEditToContentChange (change :: rest))]))
  ∧ didSave editor this
    = (this,
       [didSaveTextDocument (pathToUri (default "" path));
        didChangeWatchedFiles
          [{| file_uri := pathToUri (default "" path);
              file_type := FileChangeType.Changed |}]])
  ∧ (new Sample.untitled TextDocumentSyncKind.Full).2 = []
  ∧ (emit Sample.untitled DidDestroy full).2 = []
  ∧ emit Sample.untitled DidChange full
    = (TextEditorSyncAdapter.set_version 2 full,
       [didChangeTextDocument
          {| uri := pathToUri ""; version := 2 |}
          [{| range := None; rangeLength := None; text := "x" |}]])
  ∧ emit Sample.untitled (DidChangeText {| changes := [Sample.typedX] |}) incremental
    = (TextEditorSyncAdapter.set_version 2 incremental,
       [didChangeTextDocument
          {| uri := pathToUri ""; version := 2 |}
          [{| range := Some (atomRangeToLSRange (oldRange Sample.typedX));
              rangeLength := Some 0%nat; text := "x" |}]])
  ∧ (emit Sample.untitled DidSave full).2
    = [didSaveTextDocument (pathToUri "");
       didChangeWatchedFiles
         [{| file_uri := pathToUri ""; file_type := FileChangeType.Changed |}]].
Proof. repeat split. Qed.

End SyncAdapterFacts.

Section CanAdaptFacts.

Variable StringToNumber : string → JsNumber.

Local Abbreviation canAdapt := (DocumentSyncAdapter.canAdapt StringToNumber).

(** C3: what [canAdapt] answers for every value of the capability.  For a
    Number it answers true exactly for the numbers of Full and Incremental,
    and it answers false for an absent capability, null, a symbol and the
    boolean false.  But the comparison with Full is the loose one, so it
    also answers true for the boolean true, for the BigInt 1, for every
    string that denotes the number 1 (the string "1" in an engine that reads
    it as 1), and for every object that [ToPrimitive] turns into one of
    these (the array [[1]], which it turns into the string "1"); and it
    throws for an object whose conversion throws. *)
Theorem canAdapt_accepts_what_loosely_equals_full :
  canAdapt {| textDocumentSync := Primitive (JsBoolean true) |} = Some true
  ∧ (∀ n : Z,
       canAdapt {| textDocumentSync := Primitive (JsNumeric (Integer n)) |}
       = Some (bool_decide (n = TextDocumentSyncKind.Full
                            ∨ n = TextDocumentSyncKind.Incremental)))
  ∧ canAdapt {| textDocumentSync := Primitive (JsNumeric NotInteger) |} = Some false
  ∧ canAdapt {| textDocumentSync := Primitive JsUndefined |} = Some false
  ∧ canAdapt {| textDocumentSync := Primitive JsNull |} = Some false
  ∧ canAdapt {| textDocumentSync := Primitive JsSymbol |} = Some false
  ∧ canAdapt {| textDocumentSync := Primitive (JsBoolean false) |} = Some false
  ∧ (∀ z : Z,
       canAdapt {| textDocumentSync := Primitive (JsBigInt z) |}
       = Some (bool_decide (z = TextDocumentSyncKind.Full)))
  ∧ (∀ s : string,
       canAdapt {| textDocumentSync := Primitive (JsString s) |}
       = Some (numberEquals (StringToNumber s) TextDocumentSyncKind.Full)
       ∧ (canAdapt {| textDocumentSync := Primitive (JsString s) |} = Some true
          ↔ StringToNumber s = Integer TextDocumentSyncKind.Full))
  ∧ (∀ p : JsPrimitive,
       canAdapt {| textDocumentSync := Object (Some p) |}
       = Some (primitiveLooseEqualsNumber StringToNumber p TextDocumentSyncKind.Full))
  ∧ canAdapt {| textDocumentSync := Object (Some (JsString "1")) |}
    = canAdapt {| textDocumentSync := Primitive (JsString "1") |}
  ∧ (StringToNumber "1" = Integer 1 →
     canAdapt {| textDocumentSync := Primitive (JsString "1") |} = Some true
     ∧ canAdapt {| textDocumentSync := Object (Some (JsString "1")) |} = Some true)
  ∧ canAdapt {| textDocumentSync := Object None |} = None.
Proof.
  split_and!; try reflexivity;
    try (intros H1; unfold DocumentSyncAdapter.canAdapt; simpl;
         by rewrite H1).
  - intros n. unfold DocumentSyncAdapter.canAdapt. simpl.
    destruct (n =? TextDocumentSyncKind.Incremental) eqn:HI.
    + apply Z.eqb_eq in HI. by rewrite bool_decide_eq_true_2 by auto.
    + simpl. f_equal. apply Z.eqb_neq in HI.
      destruct (n =? TextDocumentSyncKind.Full) eqn:HF.
      * apply Z.eqb_eq in HF. by rewrite bool_decide_eq_true_2 by auto.
      * apply Z.eqb_neq in HF. rewrite bool_decide_eq_false_2; [done|].
        by intros [?|?].
  - intros z. unfold DocumentSyncAdapter.canAdapt. simpl. f_equal.
    destruct (z =? TextDocumentSyncKind.Full) eqn:HF.
    + apply Z.eqb_eq in HF. by rewrite bool_decide_eq_true_2.
    + apply Z.eqb_neq in HF. by rewrite bool_decide_eq_false_2.
  - intros s. split; [reflexivity|].
    unfold DocumentSyncAdapter.canAdapt. simpl.
    destruct (StringToNumber s) as [n|]; simpl; [|by split].
    split.
    + intros [= HF]. apply Z.eqb_eq in HF. by subst n.
    + intros [= ->]. reflexivity.
Qed.

End CanAdaptFacts.

Section RegistryFacts.

Variable pathToUri : string → string.
Variable atomRangeToLSRange : Range → LSRange.

Local Abbreviation observeTextEditor := (DocumentSyncAdapter.observeTextEditor pathToUri).
Local Abbreviation callListener :=
  (DocumentSyncAdapter.callListener pathToUri atomRangeToLSRange).
Local Abbreviation emit := (DocumentSyncAdapter.emit pathToUri atomRangeToLSRange).
Local Abbreviation step := (DocumentSyncAdapter.step pathToUri atomRangeToLSRange).
Local Abbreviation run := (DocumentSyncAdapter.run pathToUri atomRangeToLSRange).
Local Abbreviation new := (DocumentSyncAdapter.new pathToUri).
Local Abbreviation listenersOf := DocumentSyncAdapter.listenersOf.
Local Abbreviation runTeardown := DocumentSyncAdapter.runTeardown.
Local Abbreviation disposeSync := DocumentSyncAdapter.disposeSync.
Local Abbreviation disposeMember := DocumentSyncAdapter.disposeMember.
Local Abbreviation dispose := DocumentSyncAdapter.dispose.
Local Abbreviation this := DocumentSyncAdapter.this.
Local Abbreviation syncs := DocumentSyncAdapter.syncs.
Local Abbreviation destroyHooks := DocumentSyncAdapter.destroyHooks.
Local Abbreviation connection := DocumentSyncAdapter.connection.
Local Abbreviation _editors := DocumentSyncAdapter._editors.
Local Abbreviation _editorSelector := DocumentSyncAdapter._editorSelector.
Local Abbreviation _documentSyncKind := DocumentSyncAdapter._documentSyncKind.
Local Abbreviation liveOn := DocumentSyncAdapter.liveOn.
Local Abbreviation consistent := DocumentSyncAdapter.consistent.
Local Abbreviation laterSyncs := DocumentSyncAdapter.laterSyncs.
Local Abbreviation syncAdapter := DocumentSyncAdapter.syncAdapter.
Local Abbreviation teardown := DocumentSyncAdapter.teardown.
Local Abbreviation syncListener := DocumentSyncAdapter.syncListener.
Local Abbreviation editorOf := TextEditorSyncAdapter._editor.
Local Abbreviation disposableOf := TextEditorSyncAdapter._disposable.

(** *** The store of sync adapters over time *)

Lemma laterSyncs_refl l : laterSyncs l l.
Proof. apply Forall_Forall2_diag, Forall_forall. auto. Qed.

Lemma laterSyncs_trans l1 l2 l3 :
  laterSyncs l1 l2 → laterSyncs l2 l3 → laterSyncs l1 l3.
Proof.
  unfold DocumentSyncAdapter.laterSyncs. intros H12 H23.
  eapply Forall2_trans; [| exact H12 | exact H23].
  simpl. intros s1 s2 s3 [E1 D1] [E2 D2]. split; [congruence|auto].
Qed.

Lemma laterSyncs_insert l r s s' :
  l !! r = Some s →
  editorOf s' = editorOf s →
  (disposed (disposableOf s) = true → disposed (disposableOf s') = true) →
  laterSyncs l (<[r := s']> l).
Proof.
  intros Hr He Hd. unfold DocumentSyncAdapter.laterSyncs.
  rewrite <- (list_insert_id l r s Hr) at 1.
  apply Forall2_insert; [apply laterSyncs_refl|done].
Qed.

(** A sync adapter that is live later was live before, for the same editor. *)
Lemma laterSyncs_live_before l l' r s' :
  laterSyncs l l' → l' !! r = Some s' →
  ∃ s, l !! r = Some s ∧ editorOf s' = editorOf s
       ∧ (disposed (disposableOf s') = false → disposed (disposableOf s) = false).
Proof.
  intros H Hr. destruct (Forall2_lookup_r _ _ _ _ _ H Hr) as (s & Hs & He & Hd).
  exists s. split_and!; [done..|].
  intros Hlive. destruct (disposed (disposableOf s)); [|done].
  rewrite Hd in Hlive; done.
Qed.

Lemma laterSyncs_disposed_after l l' r s :
  laterSyncs l l' → l !! r = Some s → disposed (disposableOf s) = true →
  ∃ s', l' !! r = Some s' ∧ editorOf s' = editorOf s
        ∧ disposed (disposableOf s') = true.
Proof.
  intros H Hr Hd. destruct (Forall2_lookup_l _ _ _ _ _ H Hr) as (s' & Hs' & He & Hd').
  exists s'. auto.
Qed.

(** *** [disposeSync] *)

Lemma disposeSync_frame r st :
  this (disposeSync r st) = this st
  ∧ destroyHooks (disposeSync r st) = destroyHooks st
  ∧ connection (disposeSync r st) = connection st
  ∧ DocumentSyncAdapter.observing (disposeSync r st) = DocumentSyncAdapter.observing st.
Proof.
  unfold DocumentSyncAdapter.disposeSync. destruct (syncs st !! r); simpl; [|done].
  by rewrite app_nil_r.
Qed.

Lemma disposeSync_later r st : laterSyncs (syncs st) (syncs (disposeSync r st)).
Proof.
  unfold DocumentSyncAdapter.disposeSync.
  destruct (syncs st !! r) as [s|] eqn:Hr; simpl; [|apply laterSyncs_refl].
  by apply laterSyncs_insert with (s := s).
Qed.

Lemma disposeSync_disposes r st s' :
  syncs (disposeSync r st) !! r = Some s' → disposed (disposableOf s') = true.
Proof.
  unfold DocumentSyncAdapter.disposeSync.
  destruct (syncs st !! r) as [s|] eqn:Hr; simpl; [|congruence].
  rewrite list_lookup_insert_eq by (by eapply lookup_lt_Some).
  by intros [= <-].
Qed.

(** *** Calling one listener *)

Lemma consistent_later skip st st' :
  consistent skip st →
  laterSyncs (syncs st) (syncs st') →
  this st' = this st → destroyHooks st' = destroyHooks st →
  consistent skip st'.
Proof.
  intros [Hreg Hhook Hheld] Hlater Hthis Hhooks.
  split; rewrite ?Hthis, ?Hhooks.
  - intros ref s' Hs' Hlive Hskip.
    destruct (laterSyncs_live_before _ _ _ _ Hlater Hs') as (s & Hs & He & Hd).
    rewrite He in *. eauto.
  - intros ref s' Hs' Hlive.
    destruct (laterSyncs_live_before _ _ _ _ Hlater Hs') as (s & Hs & He & Hd).
    eauto.
  - intros members ref s' Hm Hs' Hlive.
    destruct (laterSyncs_live_before _ _ _ _ Hlater Hs') as (s & Hs & He & Hd).
    eauto.
Qed.

Lemma syncListener_frame editor ev r sub st :
  this (callListener editor ev st (syncListener r sub)) = this st
  ∧ destroyHooks (callListener editor ev st (syncListener r sub)) = destroyHooks st
  ∧ laterSyncs (syncs st) (syncs (callListener editor ev st (syncListener r sub))).
Proof.
  simpl. destruct (syncs st !! r) as [s|] eqn:Hr;
    [|split_and!; [done..|apply laterSyncs_refl]].
  pose proof (callListener_keeps pathToUri atomRangeToLSRange editor ev sub s)
    as [Hd He].
  destruct (TextEditorSyncAdapter.callListener _ _ editor ev sub s) as [s' sent].
  simpl in *. split_and!; [done..|].
  apply laterSyncs_insert with (s := s); [done..|]. by rewrite Hd.
Qed.

Lemma runTeardown_later editor r st :
  laterSyncs (syncs st) (syncs (runTeardown editor r st)).
Proof.
  unfold DocumentSyncAdapter.runTeardown.
  match goal with |- context [disposeSync r ?x] =>
    exact (disposeSync_later r x) end.
Qed.

Lemma runTeardown_this editor r st :
  this (runTeardown editor r st)
  = DocumentSyncAdapter.set_disposable
      (composite_remove (syncAdapter r) (DocumentSyncAdapter._disposable (this st)))
      (DocumentSyncAdapter.set_editors (delete (id editor) (_editors (this st))) (this st))
  ∧ destroyHooks (runTeardown editor r st) = destroyHooks st.
Proof.
  unfold DocumentSyncAdapter.runTeardown.
  match goal with |- context [disposeSync r ?x] =>
    destruct (disposeSync_frame r x) as (-> & -> & _) end.
  done.
Qed.

Lemma runTeardown_consistent editor r st :
  consistent (Some (id editor)) st →
  consistent (Some (id editor)) (runTeardown editor r st).
Proof.
  intros [Hreg Hhook Hheld].
  pose proof (runTeardown_later editor r st) as Hlater.
  destruct (runTeardown_this editor r st) as [Hthis Hhooks].
  split; rewrite ?Hthis.
  - intros ref s' Hs' Hlive Hskip.
    destruct (laterSyncs_live_before _ _ _ _ Hlater Hs') as (s & Hs & He & Hd).
    simpl. rewrite He in *. rewrite lookup_delete_ne by congruence. eauto.
  - intros ref s' Hs' Hlive. rewrite Hhooks.
    destruct (laterSyncs_live_before _ _ _ _ Hlater Hs') as (s & Hs & He & Hd).
    eauto.
  - intros members ref s' Hm Hs' Hlive.
    destruct (laterSyncs_live_before _ _ _ _ Hlater Hs') as (s & Hs & He & Hd).
    assert (ref ≠ r) as Hne.
    { intros ->. unfold DocumentSyncAdapter.runTeardown in Hs'.
      apply disposeSync_disposes in Hs'. congruence. }
    simpl in Hm.
    destruct (DocumentSyncAdapter._disposable (this st)) as [|members0] eqn:Hc;
      simpl in Hm; [done|].
    injection Hm as <-.
    apply list_elem_of_In, List.filter_In. split.
    + apply list_elem_of_In. eauto.
    + apply negb_true_iff, bool_decide_eq_false. congruence.
Qed.

Lemma callListener_later editor ev l st :
  laterSyncs (syncs st) (syncs (callListener editor ev st l)).
Proof.
  destruct l as [r sub|r].
  - apply syncListener_frame.
  - apply runTeardown_later.
Qed.

Lemma callListener_consistent editor ev l st :
  consistent (Some (id editor)) st →
  consistent (Some (id editor)) (callListener editor ev st l).
Proof.
  intros H. destruct l as [r sub|r].
  - destruct (syncListener_frame editor ev r sub st) as (? & ? & ?).
    by eapply consistent_later.
  - by apply runTeardown_consistent.
Qed.

(** *** Calling all listeners of an event *)

Lemma foldl_later editor ev ls : ∀ st,
  laterSyncs (syncs st) (syncs (foldl (callListener editor ev) st ls)).
Proof.
  induction ls as [|l rest IH]; intros st; simpl; [apply laterSyncs_refl|].
  eapply laterSyncs_trans; [apply callListener_later|apply IH].
Qed.

Lemma foldl_consistent editor ev ls : ∀ st,
  consistent (Some (id editor)) st →
  consistent (Some (id editor)) (foldl (callListener editor ev) st ls).
Proof.
  induction ls as [|l rest IH]; intros st H; simpl; [done|].
  by apply IH, callListener_consistent.
Qed.

Lemma foldl_syncListeners editor ev skip ls : ∀ st,
  (∀ l, l ∈ ls → ∃ r sub, l = syncListener r sub) →
  consistent skip st →
  consistent skip (foldl (callListener editor ev) st ls).
Proof.
  induction ls as [|l rest IH]; intros st Hls H; simpl; [done|].
  apply IH; [intros l' Hin; apply Hls; by right|].
  destruct (Hls l) as (r & sub & ->); [by left|].
  destruct (syncListener_frame editor ev r sub st) as (? & ? & ?).
  by eapply consistent_later.
Qed.

Lemma foldl_editors_stay_none editor ev ls : ∀ st,
  _editors (this st) !! id editor = None →
  _editors (this (foldl (callListener editor ev) st ls)) !! id editor = None.
Proof.
  induction ls as [|l rest IH]; intros st H; simpl; [done|].
  apply IH. destruct l as [r sub|r].
  - destruct (syncListener_frame editor ev r sub st) as (Hthis & _).
    by rewrite Hthis.
  - change (callListener editor ev st (teardown r)) with (runTeardown editor r st).
    destruct (runTeardown_this editor r st) as [-> _]. apply lookup_delete_eq.
Qed.

(** Once a teardown closure has been called, its editor is no longer in
    [_editors] and its sync adapter is disposed. *)
Lemma foldl_teardown editor ev r ls : ∀ st,
  teardown r ∈ ls →
  let st' := foldl (callListener editor ev) st ls in
  _editors (this st') !! id editor = None
  ∧ ∀ s', syncs st' !! r = Some s' → disposed (disposableOf s') = true.
Proof.
  induction ls as [|l rest IH]; intros st Hin; [by apply elem_of_nil in Hin|].
  apply elem_of_cons in Hin as [<-|Hin]; [|by apply IH].
  simpl.
  change (callListener editor ev st (teardown r)) with (runTeardown editor r st).
  split.
  - apply foldl_editors_stay_none.
    destruct (runTeardown_this editor r st) as [-> _]. apply lookup_delete_eq.
  - intros s' Hs'.
    destruct (laterSyncs_live_before _ _ _ _
      (foldl_later editor ev rest (runTeardown editor r st)) Hs')
      as (s & Hs & He & Hd).
    unfold DocumentSyncAdapter.runTeardown in Hs.
    apply disposeSync_disposes in Hs.
    destruct (disposed (disposableOf s')); [done|]. rewrite Hd in Hs; done.
Qed.

(** *** The listeners of an event *)

Lemma listenersOf_teardown editor st r s :
  syncs st !! r = Some s → editorOf s = id editor → r ∈ destroyHooks st →
  teardown r ∈ listenersOf editor DidDestroy st.
Proof.
  intros Hr He Hh. unfold DocumentSyncAdapter.listenersOf.
  apply list_elem_of_In, in_concat. eexists. split.
  - apply list_elem_of_In. by apply elem_of_lookup_imap_2 with (i := r).
  - simpl. rewrite decide_True by done. apply in_or_app. right.
    rewrite bool_decide_eq_true_2 by done. by left.
Qed.

Lemma listenersOf_syncListeners editor ev st l :
  isDestroy ev = false → l ∈ listenersOf editor ev st →
  ∃ r sub, l = syncListener r sub.
Proof.
  intros Hev Hin. unfold DocumentSyncAdapter.listenersOf in Hin.
  apply list_elem_of_In, in_concat in Hin as (ls & Hls & Hin).
  apply list_elem_of_In, elem_of_lookup_imap_1 in Hls as (r & s & -> & _).
  rewrite Hev in Hin. simpl in Hin. case_decide; [|done].
  rewrite app_nil_r in Hin. apply in_map_iff in Hin as (sub & <- & _). eauto.
Qed.

(** *** The adapter stays consistent *)

Lemma consistent_weaken skip st : consistent None st → consistent skip st.
Proof. intros [Hreg Hhook Hheld]. split; eauto. Qed.

(** After the destroy event of an editor, none of its sync adapters is live. *)
Lemma emit_destroy_disposes editor st r :
  consistent None st → ¬ liveOn (emit editor DidDestroy st) (id editor) r.
Proof.
  intros [Hreg Hhook Hheld] (s' & Hs' & He' & Hlive).
  unfold DocumentSyncAdapter.emit in Hs'.
  destruct (laterSyncs_live_before _ _ _ _
    (foldl_later editor DidDestroy (listenersOf editor DidDestroy st) st) Hs')
    as (s & Hs & He & Hd).
  assert (teardown r ∈ listenersOf editor DidDestroy st) as Hin.
  { apply listenersOf_teardown with (s := s); [done|congruence|eauto]. }
  destruct (foldl_teardown editor DidDestroy r _ st Hin) as [_ Hdisp].
  apply Hdisp in Hs'. congruence.
Qed.

Lemma emit_consistent editor ev st :
  consistent None st → consistent None (emit editor ev st).
Proof.
  intros H. destruct (isDestroy ev) eqn:Hev.
  - destruct ev; try done.
    pose proof (foldl_consistent editor DidDestroy
      (listenersOf editor DidDestroy st) st (consistent_weaken _ _ H))
      as [Hreg Hhook Hheld].
    fold (emit editor DidDestroy st) in Hreg, Hhook, Hheld.
    split; [|done..].
    intros ref s' Hs' Hlive _. apply Hreg; [done..|].
    intros [= He]. apply (emit_destroy_disposes editor st ref H).
    by exists s'.
  - apply foldl_syncListeners; [|done].
    intros l. by apply listenersOf_syncListeners.
Qed.

(** What [observeTextEditor] does with an editor it has no sync adapter for
    and that the selector accepts. *)
Lemma observeTextEditor_accepts editor st :
  _editors (this st) !! id editor = None →
  _editorSelector (this st) editor = true →
  let made := TextEditorSyncAdapter.new pathToUri editor (_documentSyncKind (this st)) in
  let ref := length (syncs st) in
  observeTextEditor editor st
  = {| DocumentSyncAdapter.this :=
         {| DocumentSyncAdapter._editorSelector := _editorSelector (this st);
            DocumentSyncAdapter._disposable :=
              composite_add [DocumentSyncAdapter.destroyHook ref]
                (composite_add [syncAdapter ref]
                   (DocumentSyncAdapter._disposable (this st)));
            DocumentSyncAdapter._documentSyncKind := _documentSyncKind (this st);
            DocumentSyncAdapter._editors := <[id editor := ref]> (_editors (this st)) |};
       DocumentSyncAdapter.syncs := syncs st ++ [made.1];
       DocumentSyncAdapter.destroyHooks := destroyHooks st ++ [ref];
       DocumentSyncAdapter.observing := DocumentSyncAdapter.observing st;
       DocumentSyncAdapter.connection := connection st ++ made.2 |}.
Proof.
  intros Hnone Hsel. unfold DocumentSyncAdapter.observeTextEditor.
  rewrite Hnone, Hsel, bool_decide_eq_false_2 by (by intros [? ?]). simpl.
  by destruct (TextEditorSyncAdapter.new pathToUri editor _).
Qed.

Lemma observeTextEditor_skips editor st :
  is_Some (_editors (this st) !! id editor)
  ∨ _editorSelector (this st) editor = false →
  observeTextEditor editor st = st.
Proof.
  unfold DocumentSyncAdapter.observeTextEditor. intros [H|H].
  - by rewrite bool_decide_eq_true_2.
  - by rewrite H, andb_false_r.
Qed.

Lemma observeTextEditor_consistent editor st :
  consistent None st → consistent None (observeTextEditor editor st).
Proof.
  intros [Hreg Hhook Hheld].
  destruct (_editors (this st) !! id editor) as [r0|] eqn:Hlook;
    [rewrite observeTextEditor_skips; [done|left; by rewrite Hlook] |].
  destruct (_editorSelector (this st) editor) eqn:Hsel;
    [|rewrite observeTextEditor_skips; [done|by right]].
  rewrite observeTextEditor_accepts by done.
  destruct (new_state pathToUri editor (_documentSyncKind (this st)))
    as (_ & Hd & He & _).
  split; simpl.
  - intros ref s' Hs' Hlive _.
    apply lookup_app_Some in Hs' as [Hs'|[Hlen Hs']].
    + assert (editorOf s' ≠ id editor) as Hne.
      { intros Heq. rewrite <- Heq, (Hreg ref s') in Hlook; done. }
      rewrite lookup_insert_ne by done. by apply Hreg.
    + apply list_lookup_singleton_Some in Hs' as [Hz <-].
      rewrite He, lookup_insert_eq. f_equal. lia.
  - intros ref s' Hs' Hlive.
    apply lookup_app_Some in Hs' as [Hs'|[Hlen Hs']].
    + apply elem_of_app. left. eauto.
    + apply list_lookup_singleton_Some in Hs' as [Hz <-].
      apply elem_of_app. right. apply list_elem_of_singleton. lia.
  - intros members ref s' Hm Hs' Hlive.
    destruct (DocumentSyncAdapter._disposable (this st)) as [|members0] eqn:Hc;
      simpl in Hm; [done|].
    injection Hm as <-.
    apply lookup_app_Some in Hs' as [Hs'|[Hlen Hs']].
    + apply elem_of_app. left. apply elem_of_app. left. eauto.
    + apply list_lookup_singleton_Some in Hs' as [Hz <-].
      apply elem_of_app. left. apply elem_of_app. right.
      apply list_elem_of_singleton. f_equal. lia.
Qed.

Lemma disposeMember_frame st d :
  this (disposeMember st d) = this st
  ∧ laterSyncs (syncs st) (syncs (disposeMember st d)).
Proof.
  destruct d as [|r|r]; simpl; try (split; [done|apply laterSyncs_refl]).
  split; [apply disposeSync_frame|apply disposeSync_later].
Qed.

Lemma foldl_disposeMember_frame members : ∀ st,
  this (foldl disposeMember st members) = this st
  ∧ laterSyncs (syncs st) (syncs (foldl disposeMember st members)).
Proof.
  induction members as [|d rest IH]; intros st; simpl;
    [split; [done|apply laterSyncs_refl]|].
  destruct (IH (disposeMember st d)) as [-> Hl].
  destruct (disposeMember_frame st d) as [-> Hl'].
  split; [done|]. by eapply laterSyncs_trans.
Qed.

Lemma foldl_disposeMember_disposes r members : ∀ st s',
  syncAdapter r ∈ members →
  syncs (foldl disposeMember st members) !! r = Some s' →
  disposed (disposableOf s') = true.
Proof.
  induction members as [|d rest IH]; intros st s' Hin Hs';
    [by apply elem_of_nil in Hin|].
  apply elem_of_cons in Hin as [<-|Hin]; [|by eapply IH].
  simpl in Hs'.
  destruct (foldl_disposeMember_frame rest (disposeSync r st)) as [_ Hl].
  destruct (laterSyncs_live_before _ _ _ _ Hl Hs') as (s & Hs & He & Hd).
  apply disposeSync_disposes in Hs.
  destruct (disposed (disposableOf s')); [done|]. rewrite Hd in Hs; done.
Qed.

Lemma dispose_consistent st : consistent None st → consistent None (dispose st).
Proof.
  intros H. unfold DocumentSyncAdapter.dispose.
  destruct (DocumentSyncAdapter._disposable (this st)) as [|members] eqn:Hc;
    simpl; [done|].
  destruct H as [Hreg Hhook Hheld].
  match goal with |- consistent _ (foldl _ ?x members) => set (st1 := x) end.
  destruct (foldl_disposeMember_frame members st1) as [Hthis Hl].
  assert (∀ ref s', syncs (foldl disposeMember st1 members) !! ref = Some s' →
                    disposed (disposableOf s') = true) as Hall.
  { intros ref s' Hs'.
    destruct (disposed (disposableOf s')) eqn:Hlive; [done|].
    destruct (laterSyncs_live_before _ _ _ _ Hl Hs') as (s & Hs & He & Hd).
    rewrite (foldl_disposeMember_disposes ref members st1 s') in Hlive; [done| |done].
    apply (Hheld members ref s); auto. }
  split.
  - intros ref s' Hs' Hlive. rewrite (Hall ref s') in Hlive; done.
  - intros ref s' Hs' Hlive. rewrite (Hall ref s') in Hlive; done.
  - intros members' ref s' _ Hs' Hlive. rewrite (Hall ref s') in Hlive; done.
Qed.

Lemma new_consistent openEditors documentSyncKind editorSelector :
  consistent None (new openEditors documentSyncKind editorSelector).
Proof.
  unfold DocumentSyncAdapter.new.
  match goal with |- context [foldl ?f ?x openEditors] =>
    assert (consistent None (foldl f x openEditors)) as [Hreg Hhook Hheld] end.
  { match goal with |- context [foldl ?f ?x openEditors] =>
      assert (consistent None x) as H0 by (split; simpl; intros; done);
      generalize dependent x end.
    induction openEditors as [|editor rest IH]; intros st H0; simpl; [done|].
    by apply IH, observeTextEditor_consistent. }
  split; simpl; [done..|].
  intros members ref s' Hm Hs' Hlive.
  match type of Hm with composite_add _ ?c = _ =>
    destruct c as [|members0] eqn:Hc end; simpl in Hm; [done|].
  injection Hm as <-. apply elem_of_app. left. eauto.
Qed.

Lemma step_consistent a st : consistent None st → consistent None (step st a).
Proof.
  intros H. destruct a as [editor|editor|editor ev|]; simpl.
  - destruct (DocumentSyncAdapter.observing st); [|done].
    by apply observeTextEditor_consistent.
  - by apply observeTextEditor_consistent.
  - by apply emit_consistent.
  - by apply dispose_consistent.
Qed.

Lemma run_consistent actions : ∀ st,
  consistent None st → consistent None (run actions st).
Proof.
  induction actions as [|a rest IH]; intros st H; simpl; [done|].
  by apply IH, step_consistent.
Qed.

(** C8: [observeTextEditor] leaves everything as it is when [_editors]
    already has the editor and when the selector rejects it; otherwise it
    makes exactly one sync adapter, live and registered under the editor, and
    the next destroy event of that editor removes the editor from [_editors]
    and disposes the sync adapter.  In every state the adapter reaches from
    its constructor, an editor has at most one live sync adapter, that one is
    the one [_editors] holds for it, and the destroy event of the editor
    removes the entry and leaves the editor without live sync adapter. *)
Theorem one_sync_adapter_per_editor
  (st : DocumentSyncAdapter.State) (editor : TextEditor) :
  (is_Some (_editors (this st) !! id editor) → observeTextEditor editor st = st)
  ∧ (_editorSelector (this st) editor = false → observeTextEditor editor st = st)
  ∧ (_editors (this st) !! id editor = None →
     _editorSelector (this st) editor = true →
     let made :=
       TextEditorSyncAdapter.new pathToUri editor (_documentSyncKind (this st)) in
     let ref := length (syncs st) in
     let st' := observeTextEditor editor st in
     syncs st' = syncs st ++ [made.1]
     ∧ _editors (this st') = <[id editor := ref]> (_editors (this st))
     ∧ connection st' = connection st ++ made.2
     ∧ liveOn st' (id editor) ref
     ∧ ∀ editor', id editor' = id editor →
         _editors (this (emit editor' DidDestroy st')) !! id editor = None
         ∧ ¬ liveOn (emit editor' DidDestroy st') (id editor) ref)
  ∧ (∀ openEditors documentSyncKind editorSelector actions,
       let reached :=
         run actions (new openEditors documentSyncKind editorSelector) in
       (∀ e ref1 ref2, liveOn reached e ref1 → liveOn reached e ref2 → ref1 = ref2)
       ∧ (∀ e ref, liveOn reached e ref → _editors (this reached) !! e = Some ref)
       ∧ (∀ editor' ref,
            liveOn reached (id editor') ref →
            _editors (this (emit editor' DidDestroy reached)) !! id editor' = None
            ∧ ∀ r, ¬ liveOn (emit editor' DidDestroy reached) (id editor') r)).
Proof.
  split_and!.
  - intros H. apply observeTextEditor_skips. by left.
  - intros H. apply observeTextEditor_skips. by right.
  - intros Hnone Hsel made ref st'.
    assert (st' = observeTextEditor editor st) as Hst' by done.
    rewrite observeTextEditor_accepts in Hst' by done. fold made ref in Hst'.
    destruct (new_state pathToUri editor (_documentSyncKind (this st)))
      as (_ & Hd & He & _). fold made in Hd, He.
    assert (syncs st' !! ref = Some made.1) as Hlook.
    { rewrite Hst'. simpl. rewrite lookup_app_r by done.
      by rewrite Nat.sub_diag. }
    rewrite Hst' at 1 2 3. simpl. split_and!; [done..| |].
    + exists made.1. split_and!; [done..|]. by rewrite Hd.
    + intros editor' Hid.
      assert (teardown ref ∈ listenersOf editor' DidDestroy st') as Hin.
      { apply listenersOf_teardown with (s := made.1); [done|congruence|].
        rewrite Hst'. simpl. apply elem_of_app. right.
        by apply list_elem_of_singleton. }
      destruct (foldl_teardown editor' DidDestroy ref _ st' Hin) as [Hgone Hdisp].
      fold (emit editor' DidDestroy st') in Hgone, Hdisp.
      rewrite <- Hid. split; [done|].
      intros (s' & Hs' & _ & Hlive). apply Hdisp in Hs'. congruence.
  - intros openEditors documentSyncKind editorSelector actions reached.
    assert (consistent None reached) as Hc
      by apply run_consistent, new_consistent.
    assert (∀ e ref, liveOn reached e ref → _editors (this reached) !! e = Some ref)
      as Hreg.
    { intros e ref (s & Hs & <- & Hlive).
      by apply (DocumentSyncAdapter.registered _ _ Hc). }
    split_and!; [|done|].
    + intros e ref1 ref2 H1%Hreg H2%Hreg. congruence.
    + intros editor' ref (s & Hs & He & Hlive). split.
      * assert (teardown ref ∈ listenersOf editor' DidDestroy reached) as Hin.
        { apply listenersOf_teardown with (s := s); [done..|].
          by apply (DocumentSyncAdapter.hooked _ _ Hc ref s). }
        by destruct (foldl_teardown editor' DidDestroy ref _ reached Hin).
      * intros r. by apply emit_destroy_disposes.
Qed.

(** *** Disposal sends nothing *)

Lemma foldl_disposeMember_connection members : ∀ st,
  connection (foldl disposeMember st members) = connection st.
Proof.
  induction members as [|d rest IH]; intros st; simpl; [done|].
  rewrite IH. destruct d as [|r|r]; simpl; [done| |done].
  apply disposeSync_frame.
Qed.

Lemma dispose_connection st : connection (dispose st) = connection st.
Proof.
  unfold DocumentSyncAdapter.dispose.
  destruct (disposed (DocumentSyncAdapter._disposable (this st))); [done|].
  by rewrite foldl_disposeMember_connection.
Qed.

Lemma dispose_disposed st :
  disposed (DocumentSyncAdapter._disposable (this (dispose st))) = true.
Proof.
  unfold DocumentSyncAdapter.dispose.
  destruct (disposed (DocumentSyncAdapter._disposable (this st))) eqn:Hd; [done|].
  match goal with |- context [foldl disposeMember ?x ?m] =>
    destruct (foldl_disposeMember_frame m x) as [-> _] end.
  reflexivity.
Qed.

Lemma dispose_dispose st : dispose (dispose st) = dispose st.
Proof.
  unfold DocumentSyncAdapter.dispose at 1. by rewrite dispose_disposed.
Qed.

Lemma runTeardown_connection editor r st :
  connection (runTeardown editor r st) = connection st.
Proof.
  unfold DocumentSyncAdapter.runTeardown.
  match goal with |- context [disposeSync r ?x] =>
    destruct (disposeSync_frame r x) as (_ & _ & -> & _) end.
  done.
Qed.

(** C9: [dispose] of a sync adapter sends nothing, and disposing again
    changes and sends nothing more; a disposed sync adapter reacts to no
    event; a close notification is sent only in a step that handles a destroy
    event, so a destroy event followed by any number of disposals sends what
    the destroy event alone sends.  The teardown closure and the disposal of
    the whole adapter, which dispose sync adapters, send nothing either, and
    disposing the whole adapter twice is disposing it once.  Every operation
    is a total function: there is no state in which one of them fails. *)
Theorem dispose_is_idempotent_and_silent (sync : TextEditorSyncAdapter.t) :
  (TextEditorSyncAdapter.dispose sync).2 = []
  ∧ TextEditorSyncAdapter.dispose (TextEditorSyncAdapter.dispose sync).1
    = TextEditorSyncAdapter.dispose sync
  ∧ (TextEditorSyncAdapter.run pathToUri atomRangeToLSRange
       [TextEditorSyncAdapter.Disposes; TextEditorSyncAdapter.Disposes] sync).2 = []
  ∧ (∀ editor ev,
       TextEditorSyncAdapter.emit pathToUri atomRangeToLSRange editor ev
         (TextEditorSyncAdapter.dispose sync).1
       = ((TextEditorSyncAdapter.dispose sync).1, []))
  ∧ (∀ a n,
       n ∈ (TextEditorSyncAdapter.step pathToUri atomRangeToLSRange a sync).2 →
       isClose n = true →
       ∃ editor, a = TextEditorSyncAdapter.Emits editor DidDestroy
                 ∧ is_Some (getURI editor)
                 ∧ n = didCloseTextDocument
                         (TextEditorSyncAdapter.getEditorUri pathToUri editor))
  ∧ (∀ editor,
       (TextEditorSyncAdapter.run pathToUri atomRangeToLSRange
          [TextEditorSyncAdapter.Emits editor DidDestroy;
           TextEditorSyncAdapter.Disposes;
           TextEditorSyncAdapter.Disposes] sync).2
       = (TextEditorSyncAdapter.emit pathToUri atomRangeToLSRange
            editor DidDestroy sync).2)
  ∧ (∀ st, connection (dispose st) = connection st
           ∧ dispose (dispose st) = dispose st)
  ∧ (∀ editor r st, connection (runTeardown editor r st) = connection st).
Proof.
  split_and!; try reflexivity.
  - intros a n Hin Hclose. destruct a as [editor ev|]; simpl in Hin.
    + destruct (callListeners_close pathToUri atomRangeToLSRange
                  editor ev _ n sync Hin Hclose) as (-> & ? & ->).
      eauto.
    + by apply elem_of_nil in Hin.
  - intros editor. simpl.
    destruct (TextEditorSyncAdapter.emit pathToUri atomRangeToLSRange
                editor DidDestroy sync) as [sync1 sent1].
    simpl. by rewrite app_nil_r.
  - intros st. split; [apply dispose_connection|apply dispose_dispose].
  - intros editor r st. apply runTeardown_connection.
Qed.

End RegistryFacts.

(** * The adapter on sample runs *)

(** An editor of /a.ts synchronised incrementally: the open notification at
    version 1, one change notification at version 2 for the typed "x", the two
    notifications of the save, and the close notification. *)
Example saved_editor_incremental_run :
  let st0 := DocumentSyncAdapter.new Sample.pathToUri [Sample.saved]
               TextDocumentSyncKind.Incremental Sample.acceptAll in
  let st :=
    DocumentSyncAdapter.run Sample.pathToUri Sample.atomRangeToLSRange
      [DocumentSyncAdapter.Emits Sample.saved
         (DidChangeText {| changes := [Sample.typedX] |});
       DocumentSyncAdapter.Emits Sample.saved DidSave;
       DocumentSyncAdapter.Emits Sample.saved DidDestroy] st0 in
  DocumentSyncAdapter.connection st
  = [didOpenTextDocument
       {| item_uri := "file:///a.ts"; item_languageId := "typescript";
          item_version := 1; item_text := "let a" |};
     didChangeTextDocument {| uri := "file:///a.ts"; version := 2 |}
       [{| range := Some {| range_start := {| line := 0; character := 0 |};
                            range_end := {| line := 0; character := 0 |} |};
           rangeLength := Some 0%nat; text := "x" |}];
     didSaveTextDocument "file:///a.ts";
     didChangeWatchedFiles
       [{| file_uri := "file:///a.ts"; file_type := FileChangeType.Changed |}];
     didCloseTextDocument "file:///a.ts"]
  ∧ DocumentSyncAdapter._editors (DocumentSyncAdapter.this st) = ∅
  ∧ (TextEditorSyncAdapter._disposable <$> DocumentSyncAdapter.syncs st) = [Disposed].
Proof. vm_compute. done. Qed.

(** Observing the same editor twice makes one sync adapter and one open
    notification. *)
Example observed_twice_run :
  let st :=
    DocumentSyncAdapter.run Sample.pathToUri Sample.atomRangeToLSRange
      [DocumentSyncAdapter.Opens Sample.saved;
       DocumentSyncAdapter.Observes Sample.saved]
      (DocumentSyncAdapter.new Sample.pathToUri []
         TextDocumentSyncKind.Full Sample.acceptAll) in
  length (DocumentSyncAdapter.syncs st) = 1%nat
  ∧ length (DocumentSyncAdapter.connection st) = 1%nat
  ∧ DocumentSyncAdapter._editors (DocumentSyncAdapter.this st)
    = {[ id Sample.saved := 0%nat ]}.
Proof. vm_compute. done. Qed.

(** A batch of two edits on /a.ts: two records in the order of the edits,
    under version 2. *)
Lemma incremental_changes_mirror_the_batch_witness :
  let this := (TextEditorSyncAdapter.new Sample.pathToUri Sample.saved
                 TextDocumentSyncKind.Incremental).1 in
  ∃ records,
    (TextEditorSyncAdapter.sendIncrementalChanges Sample.pathToUri
       Sample.atomRangeToLSRange Sample.saved
       {| changes := [Sample.letToVar; Sample.typedX] |} this).2
    = [didChangeTextDocument {| uri := "file:///a.ts"; version := 2 |} records]
    ∧ length records = 2%nat
    ∧ records !! 0%nat
      = Some {| range := Some (Sample.atomRangeToLSRange (oldRange Sample.letToVar));
                rangeLength := Some 3%nat; text := "var" |}
    ∧ records !! 1%nat
      = Some {| range := Some (Sample.atomRangeToLSRange (oldRange Sample.typedX));
                rangeLength := Some 0%nat; text := "x" |}.
Proof.
  intros this.
  destruct (incremental_changes_mirror_the_batch Sample.pathToUri
              Sample.atomRangeToLSRange Sample.saved
              {| changes := [Sample.letToVar; Sample.typedX] |} this)
    as (records & Hsent & Hlen & Hrec & _); [done|].
  exists records. split_and!.
  - by rewrite Hsent.
  - exact Hlen.
  - exact (Hrec 0%nat Sample.letToVar eq_refl).
  - exact (Hrec 1%nat Sample.typedX eq_refl).
Defined.

(** Made with the kind None, the adapter of /a.ts sends its open
    notification, then no change notification whatever its editor emits, the
    two notifications of a save, and the close notification on destroy. *)
Lemma other_kinds_never_send_changes_witness :
  let this := (TextEditorSyncAdapter.new Sample.pathToUri Sample.saved
                 TextDocumentSyncKind.None).1 in
  TextEditorSyncAdapter._version this = 1
  ∧ TextEditorSyncAdapter._disposable this = Holding [onDidSave; onDidDestroy]
  ∧ (TextEditorSyncAdapter.new Sample.pathToUri Sample.saved
       TextDocumentSyncKind.None).2
    = [didOpenTextDocument
         {| item_uri := "file:///a.ts"; item_languageId := "typescript";
            item_version := 1; item_text := "let a" |}]
  ∧ changesSent
      (TextEditorSyncAdapter.run Sample.pathToUri Sample.atomRangeToLSRange
         [TextEditorSyncAdapter.Emits Sample.saved DidChange;
          TextEditorSyncAdapter.Emits Sample.saved
            (DidChangeText {| changes := [Sample.typedX] |});
          TextEditorSyncAdapter.Emits Sample.saved DidSave] this).2 = 0%nat
  ∧ (TextEditorSyncAdapter.emit Sample.pathToUri Sample.atomRangeToLSRange
       Sample.saved DidSave this).2
    = [didSaveTextDocument "file:///a.ts";
       didChangeWatchedFiles
         [{| file_uri := "file:///a.ts"; file_type := FileChangeType.Changed |}]]
  ∧ (TextEditorSyncAdapter.emit Sample.pathToUri Sample.atomRangeToLSRange
       Sample.saved DidDestroy this).2
    = [didCloseTextDocument "file:///a.ts"].
Proof.
  intros this.
  destruct (other_kinds_never_send_changes Sample.pathToUri
              Sample.atomRangeToLSRange Sample.saved TextDocumentSyncKind.None)
    as (Hv & Hd & _ & Hopen & _ & Hrun & Hlater); [done..|].
  destruct (Hlater [] Sample.saved eq_refl) as (Hsave & Hclose & _).
  split_and!.
  - exact Hv.
  - exact Hd.
  - exact (Hopen "/a.ts" eq_refl).
  - apply Hrun.
  - exact Hsave.
  - exact (Hclose "/a.ts" eq_refl).
Defined.

(** * Further properties of [TextEditorSyncAdapter] *)

Section SyncAdapterLaws.

Variable pathToUri : string → string.
Variable atomRangeToLSRange : Range → LSRange.

Local Abbreviation getEditorUri := (TextEditorSyncAdapter.getEditorUri pathToUri).
Local Abbreviation callListener :=
  (TextEditorSyncAdapter.callListener pathToUri atomRangeToLSRange).
Local Abbreviation callListeners :=
  (TextEditorSyncAdapter.callListeners pathToUri atomRangeToLSRange).
Local Abbreviation emit := (TextEditorSyncAdapter.emit pathToUri atomRangeToLSRange).
Local Abbreviation step := (TextEditorSyncAdapter.step pathToUri atomRangeToLSRange).
Local Abbreviation run := (TextEditorSyncAdapter.run pathToUri atomRangeToLSRange).
Local Abbreviation new := (TextEditorSyncAdapter.new pathToUri).
Local Abbreviation _version := TextEditorSyncAdapter._version.

(** *** Versions of the change notifications *)

Lemma changeVersions_app (a b : list Notification) :
  changeVersions (a ++ b) = changeVersions a ++ changeVersions b.
Proof. apply omap_app. Qed.

Lemma callListener_changeVersions editor ev sub this :
  changeVersions (callListener editor ev sub this).2
  = seqZ (_version this + 1)
         (Z.of_nat (changesSent (callListener editor ev sub this).2)).
Proof.
  destruct sub, ev; simpl;
    unfold TextEditorSyncAdapter.sendIncrementalChanges,
      TextEditorSyncAdapter.didDestroy;
    repeat case_match; reflexivity.
Qed.

Lemma seqZ_join (v : Z) (a b : nat) :
  seqZ (v + 1) (Z.of_nat a) ++ seqZ (v + Z.of_nat a + 1) (Z.of_nat b)
  = seqZ (v + 1) (Z.of_nat (a + b)).
Proof.
  rewrite Nat2Z.inj_add, seqZ_app by lia. do 2 f_equal. lia.
Qed.

Lemma callListeners_changeVersions editor ev subs : ∀ this,
  changeVersions (callListeners editor ev subs this).2
  = seqZ (_version this + 1)
         (Z.of_nat (changesSent (callListeners editor ev subs this).2)).
Proof.
  induction subs as [|sub rest IH]; intros this; simpl; [done|].
  pose proof (callListener_changeVersions editor ev sub this) as C1.
  pose proof (callListener_version pathToUri atomRangeToLSRange editor ev sub this)
    as V1.
  destruct (callListener editor ev sub this) as [this1 sent1].
  specialize (IH this1).
  destruct (callListeners editor ev rest this1) as [this2 sent2].
  simpl in *. rewrite changeVersions_app, changesSent_app, C1, IH, V1.
  apply seqZ_join.
Qed.

Lemma step_changeVersions a this :
  changeVersions (step a this).2
  = seqZ (_version this + 1) (Z.of_nat (changesSent (step a this).2)).
Proof.
  destruct a as [editor ev|]; simpl; [|done].
  apply callListeners_changeVersions.
Qed.

Lemma run_changeVersions actions : ∀ this,
  changeVersions (run actions this).2
  = seqZ (_version this + 1) (Z.of_nat (changesSent (run actions this).2)).
Proof.
  induction actions as [|a rest IH]; intros this; simpl; [done|].
  pose proof (step_changeVersions a this) as C1.
  pose proof (step_version pathToUri atomRangeToLSRange a this) as V1.
  destruct (step a this) as [this1 sent1].
  specialize (IH this1).
  destruct (run rest this1) as [this2 sent2].
  simpl in *. rewrite changeVersions_app, changesSent_app, C1, IH, V1.
  apply seqZ_join.
Qed.

(** The change notifications of an adapter carry consecutive versions: in any
    run from any state, the next version, the one after it, and so on, in the
    order they are sent; for an adapter made by the constructor that is 2, 3,
    and so on, whatever its kind and whatever its editor emits. *)
Theorem change_versions_are_consecutive
  (actions : list TextEditorSyncAdapter.Action) (this : TextEditorSyncAdapter.t)
  (editor : TextEditor) (documentSyncKind : Z) :
  changeVersions (run actions this).2
  = seqZ (_version this + 1) (Z.of_nat (changesSent (run actions this).2))
  ∧ changeVersions (run actions (new editor documentSyncKind).1).2
    = seqZ 2 (Z.of_nat (changesSent (run actions (new editor documentSyncKind).1).2))
  ∧ NoDup (changeVersions (run actions this).2).
Proof.
  split_and!.
  - apply run_changeVersions.
  - rewrite run_changeVersions.
    by destruct (new_state pathToUri editor documentSyncKind) as (-> & _).
  - rewrite run_changeVersions. apply NoDup_seqZ.
Qed.

(** *** Open notifications *)

Lemma callListeners_no_open editor ev subs : ∀ this,
  List.filter isOpen (callListeners editor ev subs this).2 = [].
Proof.
  induction subs as [|sub rest IH]; intros this; simpl; [done|].
  assert (List.filter isOpen (callListener editor ev sub this).2 = []) as H1.
  { destruct sub, ev; simpl;
      unfold TextEditorSyncAdapter.sendIncrementalChanges,
        TextEditorSyncAdapter.didDestroy;
      repeat case_match; reflexivity. }
  destruct (callListener editor ev sub this) as [this1 sent1].
  specialize (IH this1).
  destruct (callListeners editor ev rest this1) as [this2 sent2].
  simpl in *. by rewrite List.filter_app, H1, IH.
Qed.

Lemma run_no_open actions : ∀ this,
  List.filter isOpen (run actions this).2 = [].
Proof.
  induction actions as [|a rest IH]; intros this; simpl; [done|].
  assert (List.filter isOpen (step a this).2 = []) as H1.
  { destruct a as [editor ev|]; simpl; [apply callListeners_no_open|done]. }
  destruct (step a this) as [this1 sent1].
  specialize (IH this1).
  destruct (run rest this1) as [this2 sent2].
  simpl in *. by rewrite List.filter_app, H1, IH.
Qed.

(** Only the constructor sends an open notification: at most one, before
    anything else, and none for an editor that has no URI when the adapter is
    made.  No event and no disposal sends one later, so such an editor is
    never opened by its adapter, whatever URI and path it has by then. *)
Theorem open_is_sent_by_the_constructor_only
  (editor : TextEditor) (documentSyncKind : Z)
  (actions : list TextEditorSyncAdapter.Action) (this : TextEditorSyncAdapter.t) :
  List.filter isOpen (run actions this).2 = []
  ∧ List.filter isOpen
      ((new editor documentSyncKind).2
       ++ (run actions (new editor documentSyncKind).1).2)
    = (new editor documentSyncKind).2
  ∧ (length (new editor documentSyncKind).2 ≤ 1)%nat
  ∧ (new editor documentSyncKind).2
    = match getURI editor with
      | Some _ =>
          [didOpenTextDocument
             {| item_uri := getEditorUri editor;
                item_languageId := toLowerCase (name (getGrammar editor));
                item_version := 1;
                item_text := getText editor |}]
      | None => []
      end.
Proof.
  assert ((new editor documentSyncKind).2
          = match getURI editor with
      | Some _ =>
          [didOpenTextDocument
             {| item_uri := getEditorUri editor;
                item_languageId := toLowerCase (name (getGrammar editor));
                item_version := 1;
                item_text := getText editor |}]
      | None => []
      end) as Hnew.
  { destruct (new_state pathToUri editor documentSyncKind) as (Hv & _ & _ & ->).
    unfold TextEditorSyncAdapter.didOpen. rewrite Hv. by destruct (getURI editor). }
  split_and!.
  - apply run_no_open.
  - rewrite List.filter_app, run_no_open, app_nil_r, Hnew.
    by destruct (getURI editor).
  - rewrite Hnew. destruct (getURI editor); simpl; lia.
  - exact Hnew.
Qed.

(** *** The URI of the notifications *)

Lemma callListeners_uris editor ev subs : ∀ this,
  Forall (λ n, Forall (λ u, u = getEditorUri editor) (urisOf n))
         (callListeners editor ev subs this).2.
Proof.
  induction subs as [|sub rest IH]; intros this; simpl; [constructor|].
  assert (Forall (λ n, Forall (λ u, u = getEditorUri editor) (urisOf n))
                 (callListener editor ev sub this).2) as H1.
  { destruct sub, ev; simpl;
      unfold TextEditorSyncAdapter.sendIncrementalChanges,
        TextEditorSyncAdapter.didDestroy;
      repeat case_match; repeat constructor. }
  destruct (callListener editor ev sub this) as [this1 sent1].
  specialize (IH this1).
  destruct (callListeners editor ev rest this1) as [this2 sent2].
  simpl in *. by apply Forall_app.
Qed.

(** Every notification sent when an editor emits an event names one URI: the
    conversion of the path the editor has at that moment, or of the empty
    string when it has none.  The adapter keeps no URI of its own, so after
    the path of its editor changed it goes on under the new URI. *)
Theorem notifications_name_the_current_path
  (editor : TextEditor) (ev : EditorEvent) (this : TextEditorSyncAdapter.t) :
  Forall (λ n, Forall (λ u, u = pathToUri (default "" (getPath editor))) (urisOf n))
         (emit editor ev this).2.
Proof. apply callListeners_uris. Qed.

End SyncAdapterLaws.

(** For a capability that is an integer Number, [canAdapt] answers true
    exactly when a sync adapter of that kind tracks changes, that is when
    [setupChangeTracking] returns a subscription for it; this does not depend
    on how the engine converts strings. *)
Theorem canAdapt_iff_changes_are_tracked
  (StringToNumber : string → JsNumber) (kind : Z) :
  DocumentSyncAdapter.canAdapt StringToNumber
    {| textDocumentSync := Primitive (JsNumeric (Integer kind)) |}
  = Some (bool_decide (is_Some (TextEditorSyncAdapter.setupChangeTracking kind))).
Proof.
  unfold DocumentSyncAdapter.canAdapt, TextEditorSyncAdapter.setupChangeTracking.
  simpl.
  destruct (kind =? TextDocumentSyncKind.Full) eqn:HF;
    destruct (kind =? TextDocumentSyncKind.Incremental) eqn:HI; simpl;
    done.
Qed.

(** * Further properties of [DocumentSyncAdapter] *)

Section RegistryLaws.

Variable pathToUri : string → string.
Variable atomRangeToLSRange : Range → LSRange.

Local Abbreviation observeTextEditor := (DocumentSyncAdapter.observeTextEditor pathToUri).
Local Abbreviation callListener :=
  (DocumentSyncAdapter.callListener pathToUri atomRangeToLSRange).
Local Abbreviation emit := (DocumentSyncAdapter.emit pathToUri atomRangeToLSRange).
Local Abbreviation step := (DocumentSyncAdapter.step pathToUri atomRangeToLSRange).
Local Abbreviation run := (DocumentSyncAdapter.run pathToUri atomRangeToLSRange).
Local Abbreviation new := (DocumentSyncAdapter.new pathToUri).
Local Abbreviation listenersOf := DocumentSyncAdapter.listenersOf.
Local Abbreviation runTeardown := DocumentSyncAdapter.runTeardown.
Local Abbreviation disposeSync := DocumentSyncAdapter.disposeSync.
Local Abbreviation disposeMember := DocumentSyncAdapter.disposeMember.
Local Abbreviation dispose := DocumentSyncAdapter.dispose.
Local Abbreviation this := DocumentSyncAdapter.this.
Local Abbreviation syncs := DocumentSyncAdapter.syncs.
Local Abbreviation destroyHooks := DocumentSyncAdapter.destroyHooks.
Local Abbreviation observing := DocumentSyncAdapter.observing.
Local Abbreviation connection := DocumentSyncAdapter.connection.
Local Abbreviation _editors := DocumentSyncAdapter._editors.
Local Abbreviation _editorSelector := DocumentSyncAdapter._editorSelector.
Local Abbreviation _documentSyncKind := DocumentSyncAdapter._documentSyncKind.
Local Abbreviation liveOn := DocumentSyncAdapter.liveOn.
Local Abbreviation consistent := DocumentSyncAdapter.consistent.
Local Abbreviation laterSyncs := DocumentSyncAdapter.laterSyncs.
Local Abbreviation syncAdapter := DocumentSyncAdapter.syncAdapter.
Local Abbreviation teardown := DocumentSyncAdapter.teardown.
Local Abbreviation syncListener := DocumentSyncAdapter.syncListener.
Local Abbreviation editorOf := TextEditorSyncAdapter._editor.
Local Abbreviation disposableOf := TextEditorSyncAdapter._disposable.
Local Abbreviation versionOf := TextEditorSyncAdapter._version.

(** *** What one listener leaves alone *)

Lemma disposeSync_lookup r ref st sync :
  syncs st !! ref = Some sync →
  ∃ sync', syncs (disposeSync r st) !! ref = Some sync'
           ∧ editorOf sync' = editorOf sync
           ∧ versionOf sync' = versionOf sync
           ∧ (r ≠ ref → sync' = sync).
Proof.
  intros Href. unfold DocumentSyncAdapter.disposeSync.
  destruct (syncs st !! r) as [s|] eqn:Hr; simpl; [|eauto 10].
  destruct (decide (r = ref)) as [->|Hne].
  - rewrite list_lookup_insert_eq by (by eapply lookup_lt_Some).
    eexists. split_and!; [done|..]; simplify_eq; done.
  - rewrite list_lookup_insert_ne by done. eauto 10.
Qed.

Lemma callListener_other editor ev st l ref :
  listenerRef l ≠ ref →
  syncs (callListener editor ev st l) !! ref = syncs st !! ref.
Proof.
  intros Hne. destruct l as [r sub|r]; simpl in *.
  - destruct (syncs st !! r) as [s|] eqn:Hr; [|done].
    destruct (TextEditorSyncAdapter.callListener _ _ editor ev sub s).
    simpl. by rewrite list_lookup_insert_ne.
  - unfold DocumentSyncAdapter.runTeardown, DocumentSyncAdapter.disposeSync. simpl.
    destruct (syncs st !! r) as [s|] eqn:Hr; simpl; [|done].
    by rewrite list_lookup_insert_ne.
Qed.

Lemma callListener_frame editor ev st l :
  _editorSelector (this (callListener editor ev st l)) = _editorSelector (this st)
  ∧ _documentSyncKind (this (callListener editor ev st l)) = _documentSyncKind (this st)
  ∧ destroyHooks (callListener editor ev st l) = destroyHooks st
  ∧ observing (callListener editor ev st l) = observing st
  ∧ disposed (DocumentSyncAdapter._disposable (this (callListener editor ev st l)))
    = disposed (DocumentSyncAdapter._disposable (this st))
  ∧ (∀ e, e ≠ id editor →
       _editors (this (callListener editor ev st l)) !! e = _editors (this st) !! e).
Proof.
  destruct l as [r sub|r].
  - simpl. destruct (syncs st !! r) as [s|]; [|done].
    by destruct (TextEditorSyncAdapter.callListener _ _ editor ev sub s).
  - change (callListener editor ev st (teardown r)) with (runTeardown editor r st).
    destruct (runTeardown_this editor r st) as [-> ->].
    unfold DocumentSyncAdapter.runTeardown.
    match goal with |- context [observing (disposeSync r ?x)] =>
      destruct (disposeSync_frame r x) as (_ & _ & _ & ->) end.
    simpl. split_and!; [done..| |].
    + by destruct (DocumentSyncAdapter._disposable (this st)).
    + intros e Hne. by rewrite lookup_delete_ne.
Qed.

Lemma listenersOf_refs editor ev st l :
  l ∈ listenersOf editor ev st →
  ∃ s, syncs st !! listenerRef l = Some s ∧ editorOf s = id editor
       ∧ ∀ r sub, l = syncListener r sub →
           sub ∈ disposables (disposableOf s) ∧ listensTo ev sub = true.
Proof.
  intros Hin. unfold DocumentSyncAdapter.listenersOf in Hin.
  apply list_elem_of_In, in_concat in Hin as (ls & Hls & Hin).
  apply list_elem_of_In, elem_of_lookup_imap_1 in Hls as (r & s & -> & Hr).
  case_decide; [|done]. apply in_app_or in Hin as [Hin|Hin].
  - apply in_map_iff in Hin as (sub & <- & Hsub). exists s. split_and!; [done..|].
    intros r' sub' [= <- <-].
    unfold TextEditorSyncAdapter.listeners in Hsub.
    apply List.filter_In in Hsub as [Hsub ?]. by apply list_elem_of_In in Hsub.
  - destruct (isDestroy ev && bool_decide (r ∈ destroyHooks st)); [|done].
    destruct Hin as [<-|[]]. exists s. split_and!; [done..|]. by intros ? ? ?.
Qed.

(** *** Events of one editor leave the others alone *)

Lemma foldl_frame editor ev ls : ∀ st,
  let st' := foldl (callListener editor ev) st ls in
  _editorSelector (this st') = _editorSelector (this st)
  ∧ _documentSyncKind (this st') = _documentSyncKind (this st)
  ∧ destroyHooks st' = destroyHooks st
  ∧ observing st' = observing st
  ∧ disposed (DocumentSyncAdapter._disposable (this st'))
    = disposed (DocumentSyncAdapter._disposable (this st))
  ∧ (∀ e, e ≠ id editor → _editors (this st') !! e = _editors (this st) !! e).
Proof.
  induction ls as [|l rest IH]; intros st; simpl; [done|].
  destruct (IH (callListener editor ev st l)) as (-> & -> & -> & -> & -> & Hed).
  destruct (callListener_frame editor ev st l) as (-> & -> & -> & -> & -> & Hed').
  split_and!; [done..|]. intros e Hne. by rewrite Hed, Hed'.
Qed.

Lemma foldl_other editor ev ref ls : ∀ st,
  (∀ l, l ∈ ls → listenerRef l ≠ ref) →
  syncs (foldl (callListener editor ev) st ls) !! ref = syncs st !! ref.
Proof.
  induction ls as [|l rest IH]; intros st Hls; simpl; [done|].
  rewrite IH by (intros l' Hin; apply Hls; by right).
  apply callListener_other, Hls. by left.
Qed.

(** An event of an editor changes nothing about the sync adapters of other
    editors and nothing about their entries in [_editors]; it never changes
    the selector, the kind, the number of sync adapters, or which teardown
    closures are subscribed. *)
Theorem events_leave_other_editors_alone
  (editor : TextEditor) (ev : EditorEvent) (st : DocumentSyncAdapter.State) :
  (∀ ref sync,
     syncs st !! ref = Some sync → editorOf sync ≠ id editor →
     syncs (emit editor ev st) !! ref = Some sync)
  ∧ (∀ e, e ≠ id editor →
       _editors (this (emit editor ev st)) !! e = _editors (this st) !! e)
  ∧ _editorSelector (this (emit editor ev st)) = _editorSelector (this st)
  ∧ _documentSyncKind (this (emit editor ev st)) = _documentSyncKind (this st)
  ∧ length (syncs (emit editor ev st)) = length (syncs st)
  ∧ destroyHooks (emit editor ev st) = destroyHooks st.
Proof.
  destruct (foldl_frame editor ev (listenersOf editor ev st) st)
    as (Hsel & Hkind & Hhooks & _ & _ & Hed).
  split_and!; try done.
  - intros ref sync Href Hne. unfold DocumentSyncAdapter.emit.
    rewrite foldl_other; [done|].
    intros l Hin <-. apply listenersOf_refs in Hin as (s & Hs & He & _).
    congruence.
  - symmetry. eapply Forall2_length.
    apply (foldl_later pathToUri atomRangeToLSRange).
Qed.

(** *** Editors without live sync adapter *)

Lemma foldl_teardowns_connection editor ev ls : ∀ st,
  (∀ l, l ∈ ls → ∃ r, l = teardown r) →
  connection (foldl (callListener editor ev) st ls) = connection st.
Proof.
  induction ls as [|l rest IH]; intros st Hls; simpl; [done|].
  rewrite IH by (intros l' Hin; apply Hls; by right).
  destruct (Hls l) as [r ->]; [by left|]. apply runTeardown_connection.
Qed.

Lemma emit_without_live_sync editor ev st :
  (∀ ref, ¬ liveOn st (id editor) ref) →
  connection (emit editor ev st) = connection st.
Proof.
  intros Hnone. apply foldl_teardowns_connection. intros l Hin.
  destruct l as [r sub|r]; [|eauto].
  apply listenersOf_refs in Hin as (s & Hs & He & Hsub).
  destruct (Hsub r sub eq_refl) as [Hmem _].
  exfalso. apply (Hnone r). exists s. split_and!; [done..|].
  destruct (disposableOf s); [by apply elem_of_nil in Hmem|done].
Qed.

(** When an editor has no live sync adapter (it was never observed, the
    selector rejected it, it was destroyed, or the adapter was disposed),
    its events send nothing. *)
Theorem editor_without_live_sync_adapter_is_silent
  (editor : TextEditor) (ev : EditorEvent) (st : DocumentSyncAdapter.State) :
  (∀ ref, ¬ liveOn st (id editor) ref) →
  connection (emit editor ev st) = connection st.
Proof. apply emit_without_live_sync. Qed.

(** *** Observing twice *)

(** Calling [observeTextEditor] twice with the same editor is calling it
    once, in every state of the adapter. *)
Theorem observeTextEditor_is_idempotent
  (editor : TextEditor) (st : DocumentSyncAdapter.State) :
  observeTextEditor editor (observeTextEditor editor st)
  = observeTextEditor editor st.
Proof.
  destruct (_editors (this st) !! id editor) as [r0|] eqn:Hlook.
  { rewrite (observeTextEditor_skips pathToUri editor st);
      [|left; by rewrite Hlook].
    apply observeTextEditor_skips. left. by rewrite Hlook. }
  destruct (_editorSelector (this st) editor) eqn:Hsel.
  - apply observeTextEditor_skips. left.
    rewrite observeTextEditor_accepts by done. simpl.
    by rewrite lookup_insert_eq.
  - rewrite (observeTextEditor_skips pathToUri editor st) by (by right).
    apply observeTextEditor_skips. by right.
Qed.

(** *** The live sync adapter handles the events of its editor *)

(** What a method sends and the version it leaves depend on the version of
    the sync adapter only, not on its subscriptions. *)
Lemma syncAdapter_callListener_by_version editor ev sub s s0 :
  versionOf s = versionOf s0 →
  (TextEditorSyncAdapter.callListener pathToUri atomRangeToLSRange editor ev sub s).2
  = (TextEditorSyncAdapter.callListener pathToUri atomRangeToLSRange editor ev sub s0).2
  ∧ versionOf
      (TextEditorSyncAdapter.callListener pathToUri atomRangeToLSRange editor ev sub s).1
    = versionOf
        (TextEditorSyncAdapter.callListener pathToUri atomRangeToLSRange editor ev sub s0).1.
Proof.
  intros Hv. destruct sub, ev; simpl;
    unfold TextEditorSyncAdapter.sendIncrementalChanges,
      TextEditorSyncAdapter.sendFullChanges, TextEditorSyncAdapter.didSave,
      TextEditorSyncAdapter.didDestroy,
      TextEditorSyncAdapter.getVersionedTextDocumentIdentifier;
    repeat case_match; simpl; rewrite ?Hv; done.
Qed.

Lemma subscriptionsOf_cons_sync ref sub rest :
  subscriptionsOf ref (syncListener ref sub :: rest)
  = sub :: subscriptionsOf ref rest.
Proof. unfold subscriptionsOf. simpl. by rewrite decide_True. Qed.

Lemma subscriptionsOf_cons_other ref r sub rest :
  r ≠ ref →
  subscriptionsOf ref (syncListener r sub :: rest) = subscriptionsOf ref rest.
Proof. intros Hne. unfold subscriptionsOf. simpl. by rewrite decide_False. Qed.

Lemma foldl_connection editor ev ref ls : ∀ st sync sync0,
  syncs st !! ref = Some sync →
  versionOf sync = versionOf sync0 →
  (∀ l, l ∈ ls → ∀ r sub, l = syncListener r sub → r = ref) →
  connection (foldl (callListener editor ev) st ls)
  = connection st
    ++ (TextEditorSyncAdapter.callListeners pathToUri atomRangeToLSRange
          editor ev (subscriptionsOf ref ls) sync0).2
  ∧ ∃ sync',
      syncs (foldl (callListener editor ev) st ls) !! ref = Some sync'
      ∧ versionOf sync'
        = versionOf
            (TextEditorSyncAdapter.callListeners pathToUri atomRangeToLSRange
               editor ev (subscriptionsOf ref ls) sync0).1.
Proof.
  induction ls as [|l rest IH]; intros st sync sync0 Href Hv Hls.
  { simpl. rewrite app_nil_r. eauto. }
  assert (∀ l', l' ∈ rest → ∀ r sub, l' = syncListener r sub → r = ref) as Hrest
    by (intros l' Hin; apply Hls; by right).
  destruct l as [r sub|r].
  - assert (r = ref) as -> by (by eapply Hls; [left|]).
    rewrite subscriptionsOf_cons_sync. simpl. rewrite Href.
    destruct (syncAdapter_callListener_by_version editor ev sub sync sync0 Hv)
      as [Hsent Hv1].
    destruct (TextEditorSyncAdapter.callListener pathToUri atomRangeToLSRange
                editor ev sub sync) as [sync1 sent1].
    destruct (TextEditorSyncAdapter.callListener pathToUri atomRangeToLSRange
                editor ev sub sync0) as [sync01 sent01].
    simpl in Hsent, Hv1. subst sent01.
    match goal with |- context [foldl _ ?x rest] =>
      destruct (IH x sync1 sync01) as [Hc Hs]; [|done..|] end.
    { simpl. apply list_lookup_insert_eq. by eapply lookup_lt_Some. }
    destruct (TextEditorSyncAdapter.callListeners pathToUri atomRangeToLSRange
                editor ev (subscriptionsOf ref rest) sync01) as [sync02 sent02].
    split; [|done]. rewrite Hc. simpl. by rewrite <- app_assoc.
  - simpl. change (subscriptionsOf ref (teardown r :: rest))
      with (subscriptionsOf ref rest).
    change (callListener editor ev st (teardown r)) with (runTeardown editor r st).
    assert (∃ sync1, syncs (runTeardown editor r st) !! ref = Some sync1
                     ∧ versionOf sync1 = versionOf sync) as (sync1 & Hs1 & Hv1).
    { unfold DocumentSyncAdapter.runTeardown.
      match goal with |- context [disposeSync r ?x] =>
        destruct (disposeSync_lookup r ref x sync Href) as (s1 & ? & _ & ? & _) end.
      eauto. }
    destruct (IH (runTeardown editor r st) sync1 sync0) as [Hc Hs];
      [done|congruence|done|].
    by rewrite Hc, runTeardown_connection.
Qed.

Lemma subscriptionsOf_app ref l1 l2 :
  subscriptionsOf ref (l1 ++ l2) = subscriptionsOf ref l1 ++ subscriptionsOf ref l2.
Proof. apply omap_app. Qed.

Lemma subscriptionsOf_syncListeners ref r subs :
  subscriptionsOf ref (map (syncListener r) subs)
  = if decide (r = ref) then subs else [].
Proof.
  destruct (decide (r = ref)) as [->|Hne].
  - induction subs as [|sub rest IH]; [done|].
    by rewrite map_cons, subscriptionsOf_cons_sync, IH.
  - induction subs as [|sub rest IH]; [done|].
    by rewrite map_cons, subscriptionsOf_cons_other.
Qed.

Lemma subscriptionsOf_listenersOf editor ev st ref :
  subscriptionsOf ref (listenersOf editor ev st)
  = match syncs st !! ref with
    | Some sync =>
        if decide (editorOf sync = id editor)
        then TextEditorSyncAdapter.listeners ev sync else []
    | None => []
    end.
Proof.
  unfold DocumentSyncAdapter.listenersOf.
  generalize (destroyHooks st). intros hooks.
  induction (syncs st) as [|x l IH] using rev_ind; [done|].
  rewrite imap_app, concat_app, subscriptionsOf_app, IH. simpl.
  rewrite app_nil_r, Nat.add_0_r.
  assert (subscriptionsOf ref
            (if decide (editorOf x = id editor)
             then map (syncListener (length l))
                    (TextEditorSyncAdapter.listeners ev x)
                  ++ (if isDestroy ev && bool_decide (length l ∈ hooks)
                      then [teardown (length l)] else [])
             else [])
          = if decide (length l = ref)
            then (if decide (editorOf x = id editor)
                  then TextEditorSyncAdapter.listeners ev x else [])
            else []) as ->.
  { case_decide; [|by case_decide].
    rewrite subscriptionsOf_app, subscriptionsOf_syncListeners.
    destruct (isDestroy ev && bool_decide (length l ∈ hooks));
      case_decide; by rewrite ?app_nil_r. }
  destruct (decide (length l = ref)) as [<-|Hne].
  - rewrite (lookup_ge_None_2 l) by done.
    by rewrite lookup_app_r, Nat.sub_diag by done.
  - rewrite app_nil_r. destruct (decide (ref < length l)%nat).
    + by rewrite lookup_app_l.
    + rewrite (lookup_ge_None_2 l) by lia.
      rewrite lookup_app_r by lia.
      destruct (ref - length l)%nat eqn:Hd; [lia|done].
Qed.

(** In every state the adapter reaches from its constructor, an event of an
    editor that has a live sync adapter sends exactly what that sync adapter
    sends on the event, after everything sent before, and leaves it at the
    version it reaches by handling the event. *)
Theorem event_is_handled_by_the_live_sync_adapter
  (openEditors : list TextEditor) (documentSyncKind : Z)
  (editorSelector : TextEditor → bool)
  (actions : list DocumentSyncAdapter.Action)
  (editor : TextEditor) (ev : EditorEvent)
  (ref : nat) (sync : TextEditorSyncAdapter.t) :
  let reached := run actions (new openEditors documentSyncKind editorSelector) in
  syncs reached !! ref = Some sync →
  editorOf sync = id editor →
  disposed (disposableOf sync) = false →
  connection (emit editor ev reached)
  = connection reached
    ++ (TextEditorSyncAdapter.emit pathToUri atomRangeToLSRange editor ev sync).2
  ∧ ∃ sync',
      syncs (emit editor ev reached) !! ref = Some sync'
      ∧ versionOf sync'
        = versionOf
            (TextEditorSyncAdapter.emit pathToUri atomRangeToLSRange editor ev sync).1.
Proof.
  intros reached Href He Hlive.
  assert (consistent None reached) as Hc
    by apply run_consistent, new_consistent.
  unfold DocumentSyncAdapter.emit, TextEditorSyncAdapter.emit.
  replace (TextEditorSyncAdapter.listeners ev sync)
    with (subscriptionsOf ref (listenersOf editor ev reached))
    by (by rewrite subscriptionsOf_listenersOf, Href, decide_True).
  apply foldl_connection with (sync := sync); [done..|].
  intros l Hin r sub ->.
  apply listenersOf_refs in Hin as (s & Hs & Hes & Hsub).
  destruct (Hsub r sub eq_refl) as [Hmem _]. simpl in Hs.
  assert (disposed (disposableOf s) = false) as Hslive
    by (destruct (disposableOf s); [by apply elem_of_nil in Hmem|done]).
  pose proof (DocumentSyncAdapter.registered _ _ Hc r s Hs Hslive) as H1.
  pose proof (DocumentSyncAdapter.registered _ _ Hc ref sync Href Hlive) as H2.
  rewrite Hes in H1. rewrite He in H2.
  specialize (H1 ltac:(done)). specialize (H2 ltac:(done)). congruence.
Qed.

(** *** After the adapter was disposed *)

Lemma quiet_no_live st e ref : quiet st → ¬ liveOn st e ref.
Proof. intros [_ Hall] (s & Hs & _ & Hlive). rewrite (Hall ref s) in Hlive; done. Qed.

Lemma quiet_later st st' :
  quiet st → laterSyncs (syncs st) (syncs st') → observing st' = observing st →
  quiet st'.
Proof.
  intros [Hobs Hall] Hl Ho. split; [congruence|].
  intros ref s' Hs'.
  destruct (laterSyncs_live_before _ _ _ _ Hl Hs') as (s & Hs & _ & Hd).
  destruct (disposed (disposableOf s')); [done|].
  rewrite (Hall ref s Hs) in Hd. by specialize (Hd eq_refl).
Qed.

Lemma emit_quiet editor ev st :
  quiet st →
  quiet (emit editor ev st) ∧ connection (emit editor ev st) = connection st.
Proof.
  intros Hq. split.
  - apply quiet_later with (st := st); [done|..].
    + apply (foldl_later pathToUri atomRangeToLSRange).
    + by destruct (foldl_frame editor ev (listenersOf editor ev st) st)
        as (_ & _ & _ & ? & _).
  - apply emit_without_live_sync.
    intros ref. by apply quiet_no_live.
Qed.

Lemma foldl_disposeMember_observing members : ∀ st,
  observing st = false ∨ DocumentSyncAdapter.textEditorsObserver ∈ members →
  observing (foldl disposeMember st members) = false.
Proof.
  induction members as [|d rest IH]; intros st H; simpl.
  { destruct H as [H|H]; [done|by apply elem_of_nil in H]. }
  apply IH. destruct d as [|r|r]; simpl.
  - by left.
  - destruct (disposeSync_frame r st) as (_ & _ & _ & ->).
    destruct H as [H|H]; [by left|right].
    by apply elem_of_cons in H as [?|?].
  - destruct H as [H|H]; [by left|right].
    by apply elem_of_cons in H as [?|?].
Qed.

Lemma dispose_quiet st :
  consistent None st → anchored st → quiet (dispose st).
Proof.
  intros [Hreg Hhook Hheld] Ha. unfold anchored in Ha.
  unfold DocumentSyncAdapter.dispose.
  destruct (DocumentSyncAdapter._disposable (this st)) as [|members] eqn:Hc;
    simpl; [done|].
  match goal with |- quiet (foldl _ ?x members) => set (st1 := x) end.
  destruct (foldl_disposeMember_frame members st1) as [Hthis Hl].
  split; [apply foldl_disposeMember_observing; by right|].
  intros ref s' Hs'.
  destruct (disposed (disposableOf s')) eqn:Hlive; [done|].
  destruct (laterSyncs_live_before _ _ _ _ Hl Hs') as (s & Hs & He & Hd).
  rewrite (foldl_disposeMember_disposes ref members st1 s') in Hlive; [done| |done].
  apply (Hheld members ref s); auto.
Qed.

Lemma dispose_keeps_quiet st : quiet st → quiet (dispose st).
Proof.
  intros Hq. unfold DocumentSyncAdapter.dispose.
  destruct (disposed (DocumentSyncAdapter._disposable (this st))); [done|].
  match goal with |- quiet (foldl _ ?x ?m) =>
    destruct (foldl_disposeMember_frame m x) as [_ Hl];
    apply quiet_later with (st := st); [done|exact Hl|] end.
  rewrite foldl_disposeMember_observing; [by destruct Hq|left; by destruct Hq].
Qed.

Lemma observeTextEditor_anchored editor st :
  observing st = true → anchored st → anchored (observeTextEditor editor st).
Proof.
  intros Hobs Ha. unfold anchored in *.
  destruct (_editors (this st) !! id editor) as [r0|] eqn:Hlook;
    [rewrite observeTextEditor_skips; [done|left; by rewrite Hlook] |].
  destruct (_editorSelector (this st) editor) eqn:Hsel;
    [|rewrite observeTextEditor_skips; [done|by right]].
  rewrite observeTextEditor_accepts by done. simpl.
  destruct (DocumentSyncAdapter._disposable (this st)) as [|members]; simpl.
  - destruct Ha as [Ha _]. congruence.
  - apply elem_of_app. left. apply elem_of_app. by left.
Qed.

Lemma callListener_observer editor ev st l members' :
  DocumentSyncAdapter._disposable (this (callListener editor ev st l)) = Holding members' →
  ∃ members, DocumentSyncAdapter._disposable (this st) = Holding members
             ∧ (DocumentSyncAdapter.textEditorsObserver ∈ members →
                DocumentSyncAdapter.textEditorsObserver ∈ members').
Proof.
  destruct l as [r sub|r].
  - destruct (syncListener_frame pathToUri atomRangeToLSRange editor ev r sub st)
      as (-> & _). eauto.
  - change (callListener editor ev st (teardown r)) with (runTeardown editor r st).
    destruct (runTeardown_this editor r st) as [-> _]. simpl.
    destruct (DocumentSyncAdapter._disposable (this st)) as [|members]; simpl; [done|].
    intros [= <-]. exists members. split; [done|]. intros Hin.
    apply list_elem_of_In, List.filter_In. split; [by apply list_elem_of_In|done].
Qed.

Lemma foldl_observer editor ev ls : ∀ st members',
  DocumentSyncAdapter._disposable (this (foldl (callListener editor ev) st ls))
  = Holding members' →
  ∃ members, DocumentSyncAdapter._disposable (this st) = Holding members
             ∧ (DocumentSyncAdapter.textEditorsObserver ∈ members →
                DocumentSyncAdapter.textEditorsObserver ∈ members').
Proof.
  induction ls as [|l rest IH]; intros st members' H; simpl in *; [eauto|].
  destruct (IH _ _ H) as (m1 & H1 & Hin1).
  destruct (callListener_observer editor ev st l m1 H1) as (m0 & H0 & Hin0).
  eauto.
Qed.

Lemma emit_anchored editor ev st : anchored st → anchored (emit editor ev st).
Proof.
  intros Ha. unfold anchored in *.
  destruct (DocumentSyncAdapter._disposable (this (emit editor ev st)))
    as [|members'] eqn:Hc'.
  - destruct (foldl_frame editor ev (listenersOf editor ev st) st)
      as (_ & _ & _ & _ & Hd & _).
    fold (emit editor ev st) in Hd. rewrite Hc' in Hd.
    destruct (DocumentSyncAdapter._disposable (this st)); [|done].
    by apply emit_quiet.
  - destruct (foldl_observer editor ev _ st members' Hc') as (members & Hc & Hin).
    rewrite Hc in Ha. auto.
Qed.

Lemma dispose_anchored st :
  consistent None st → anchored st → anchored (dispose st).
Proof.
  intros Hc Ha. pose proof (dispose_quiet st Hc Ha) as Hq.
  unfold anchored. pose proof (dispose_disposed st) as Hd.
  by destruct (DocumentSyncAdapter._disposable (this (dispose st))).
Qed.

Lemma new_anchored openEditors documentSyncKind editorSelector :
  anchored (new openEditors documentSyncKind editorSelector)
  ∧ observing (new openEditors documentSyncKind editorSelector) = true.
Proof.
  unfold DocumentSyncAdapter.new, anchored. simpl. split; [|done].
  match goal with |- context [foldl ?f ?x openEditors] =>
    assert (disposed (DocumentSyncAdapter._disposable (this (foldl f x openEditors)))
            = false) as Hd end.
  { match goal with |- context [foldl ?f ?x openEditors] =>
      assert (disposed (DocumentSyncAdapter._disposable (this x)) = false) as H0
        by done;
      generalize dependent x end.
    induction openEditors as [|editor rest IH]; intros st H0; simpl; [done|].
    apply IH. unfold DocumentSyncAdapter.observeTextEditor.
    destruct (_ && _); [|done].
    destruct (TextEditorSyncAdapter.new pathToUri editor _). simpl.
    by destruct (DocumentSyncAdapter._disposable (this st)). }
  match type of Hd with disposed ?c = false => destruct c as [|members] end;
    [done|].
  simpl. apply elem_of_app. right. by apply list_elem_of_singleton.
Qed.

Lemma step_anchored a st :
  hostDriven a = true → consistent None st → anchored st →
  anchored (step st a).
Proof.
  intros Hh Hc Ha. destruct a as [editor|editor|editor ev|]; simpl; try done.
  - destruct (observing st) eqn:Hobs; [|done].
    by apply observeTextEditor_anchored.
  - by apply emit_anchored.
  - by apply dispose_anchored.
Qed.

Lemma run_anchored actions : ∀ st,
  forallb hostDriven actions = true → consistent None st → anchored st →
  anchored (run actions st).
Proof.
  induction actions as [|a rest IH]; intros st Hh Hc Ha; simpl in *; [done|].
  apply andb_true_iff in Hh as [Ha1 Hrest].
  apply IH; [done|by apply step_consistent|by apply step_anchored].
Qed.

Lemma run_quiet actions : ∀ st,
  forallb hostDriven actions = true → quiet st →
  quiet (run actions st) ∧ connection (run actions st) = connection st.
Proof.
  induction actions as [|a rest IH]; intros st Hh Hq; simpl in *; [done|].
  apply andb_true_iff in Hh as [Ha1 Hrest].
  assert (quiet (step st a) ∧ connection (step st a) = connection st) as [Hq1 Hc1].
  { destruct a as [editor|editor|editor ev|]; simpl; try done.
    - destruct Hq as [Hobs ?]. rewrite Hobs. by split.
    - by apply emit_quiet.
    - split; [by apply dispose_keeps_quiet|apply dispose_connection]. }
  destruct (IH _ Hrest Hq1) as [Hq2 Hc2]. split; [done|congruence].
Qed.

(** Disposing the adapter silences it for good: as long as
    [observeTextEditor] is called by the registry of text editors only,
    after [dispose] every sync adapter is disposed, the registry no longer
    calls the adapter, and whatever editors are opened and whatever events
    editors emit later, nothing more is sent and no sync adapter is live. *)
Theorem disposed_adapter_sends_nothing_more
  (openEditors : list TextEditor) (documentSyncKind : Z)
  (editorSelector : TextEditor → bool)
  (before after : list DocumentSyncAdapter.Action) :
  forallb hostDriven before = true →
  forallb hostDriven after = true →
  let reached := run before (new openEditors documentSyncKind editorSelector) in
  quiet (dispose reached)
  ∧ connection (run after (dispose reached)) = connection reached
  ∧ ∀ e ref, ¬ liveOn (run after (dispose reached)) e ref.
Proof.
  intros Hb Ha reached.
  assert (consistent None reached) as Hc by apply run_consistent, new_consistent.
  assert (anchored reached) as Hanch.
  { apply run_anchored; [done|apply new_consistent|apply new_anchored]. }
  pose proof (dispose_quiet reached Hc Hanch) as Hq.
  destruct (run_quiet after (dispose reached) Ha Hq) as [Hq' Hc'].
  split_and!; [done| |].
  - by rewrite Hc', dispose_connection.
  - intros e ref. by apply quiet_no_live.
Qed.

(** *** What the entries of [_editors] refer to *)

Lemma syncListener_same editor ev r sub st ref s :
  syncs st !! ref = Some s →
  ∃ s', syncs (callListener editor ev st (syncListener r sub)) !! ref = Some s'
        ∧ editorOf s' = editorOf s ∧ disposableOf s' = disposableOf s.
Proof.
  intros Href. simpl. destruct (syncs st !! r) as [sr|] eqn:Hr; [|eauto].
  pose proof (callListener_keeps pathToUri atomRangeToLSRange editor ev sub sr)
    as [Hd He].
  destruct (TextEditorSyncAdapter.callListener _ _ editor ev sub sr) as [sr' sent].
  simpl in *. destruct (decide (r = ref)) as [->|Hne].
  - rewrite list_lookup_insert_eq by (by eapply lookup_lt_Some).
    simplify_eq. eauto.
  - rewrite list_lookup_insert_ne by done. eauto.
Qed.

Lemma callListener_backed editor ev st l :
  (∀ r s, l = teardown r → syncs st !! r = Some s → editorOf s = id editor) →
  registryBacked st → registryBacked (callListener editor ev st l).
Proof.
  intros Hl Hb e ref Hentry. destruct l as [r sub|r].
  - destruct (syncListener_frame pathToUri atomRangeToLSRange editor ev r sub st)
      as (Hthis & _).
    rewrite Hthis in Hentry |- *.
    destruct (Hb e ref Hentry) as (s & Hs & He & Hlive).
    destruct (syncListener_same editor ev r sub st ref s Hs) as (s' & Hs' & He' & Hd').
    exists s'. split_and!; [done|congruence|]. rewrite Hd'. done.
  - change (callListener editor ev st (teardown r)) with (runTeardown editor r st)
      in *.
    destruct (runTeardown_this editor r st) as [Hthis _].
    rewrite Hthis in Hentry |- *. simpl in Hentry |- *.
    apply lookup_delete_Some in Hentry as [Hne Hentry].
    destruct (Hb e ref Hentry) as (s & Hs & He & Hlive).
    assert (r ≠ ref) as Hr.
    { intros ->. apply Hne. rewrite <- He. symmetry. by eapply Hl. }
    unfold DocumentSyncAdapter.runTeardown.
    match goal with |- context [disposeSync r ?x] =>
      destruct (disposeSync_lookup r ref x s Hs) as (s' & Hs' & _ & _ & Heq) end.
    rewrite (Heq Hr) in Hs'. exists s. split_and!; [done..|].
    intros Hd. apply Hlive.
    by destruct (DocumentSyncAdapter._disposable (this st)).
Qed.

Lemma foldl_backed editor ev ls : ∀ st,
  (∀ l r s, l ∈ ls → l = teardown r → syncs st !! r = Some s →
            editorOf s = id editor) →
  registryBacked st → registryBacked (foldl (callListener editor ev) st ls).
Proof.
  induction ls as [|l rest IH]; intros st Hls Hb; simpl; [done|].
  apply IH.
  - intros l' r s1 Hin -> Hs1.
    destruct (laterSyncs_live_before _ _ _ _
      (callListener_later pathToUri atomRangeToLSRange editor ev l st) Hs1)
      as (s & Hs & He & _).
    rewrite He. eapply (Hls (teardown r)); [by right|done..].
  - apply callListener_backed; [|done].
    intros r s -> Hs. eapply (Hls (teardown r)); [by left|done..].
Qed.

Lemma emit_backed editor ev st : registryBacked st → registryBacked (emit editor ev st).
Proof.
  intros Hb. apply foldl_backed; [|done].
  intros l r s Hin -> Hs.
  apply listenersOf_refs in Hin as (s0 & Hs0 & He & _). simpl in Hs0. congruence.
Qed.

Lemma observeTextEditor_backed editor st :
  registryBacked st → registryBacked (observeTextEditor editor st).
Proof.
  intros Hb.
  destruct (_editors (this st) !! id editor) as [r0|] eqn:Hlook;
    [rewrite observeTextEditor_skips; [done|left; by rewrite Hlook] |].
  destruct (_editorSelector (this st) editor) eqn:Hsel;
    [|rewrite observeTextEditor_skips; [done|by right]].
  rewrite observeTextEditor_accepts by done.
  destruct (new_state pathToUri editor (_documentSyncKind (this st)))
    as (_ & Hd & He & _).
  intros e ref. simpl. intros Hentry.
  apply lookup_insert_Some in Hentry as [[<- <-]|[Hne Hentry]].
  - eexists. split_and!; [by rewrite lookup_app_r, Nat.sub_diag|done|].
    by rewrite Hd.
  - destruct (Hb e ref Hentry) as (s & Hs & Hes & Hlive).
    exists s. split_and!; [by apply lookup_app_l_Some|done|].
    intros Hc. apply Hlive.
    by destruct (DocumentSyncAdapter._disposable (this st)).
Qed.

Lemma dispose_backed st : registryBacked st → registryBacked (dispose st).
Proof.
  intros Hb e ref Hentry.
  pose proof (dispose_disposed st) as Hdd.
  unfold DocumentSyncAdapter.dispose in *.
  destruct (disposed (DocumentSyncAdapter._disposable (this st))) eqn:Hd;
    [by apply Hb|].
  match goal with |- context [foldl disposeMember ?x ?m] =>
    destruct (foldl_disposeMember_frame m x) as [Hthis Hl] end.
  rewrite Hthis in Hentry, Hdd |- *. simpl in Hentry.
  destruct (Hb e ref Hentry) as (s & Hs & He & _).
  destruct (Forall2_lookup_l _ _ _ _ _ Hl Hs) as (s' & Hs' & He' & _).
  exists s'. split_and!; [done|congruence|]. intros Hc. congruence.
Qed.

Lemma new_backed openEditors documentSyncKind editorSelector :
  registryBacked (new openEditors documentSyncKind editorSelector).
Proof.
  unfold DocumentSyncAdapter.new.
  match goal with |- context [foldl ?f ?x openEditors] =>
    assert (registryBacked (foldl f x openEditors)) as Hb end.
  { match goal with |- context [foldl ?f ?x openEditors] =>
      assert (registryBacked x) as H0 by (intros e ref; simpl; done);
      generalize dependent x end.
    induction openEditors as [|editor rest IH]; intros st H0; simpl; [done|].
    by apply IH, observeTextEditor_backed. }
  intros e ref Hentry. simpl in Hentry.
  destruct (Hb e ref Hentry) as (s & Hs & He & Hlive).
  exists s. split_and!; [done..|]. simpl. intros Hc. apply Hlive.
  match goal with |- disposed ?c = false =>
    by destruct c end.
Qed.

Lemma run_backed actions : ∀ st, registryBacked st → registryBacked (run actions st).
Proof.
  induction actions as [|a rest IH]; intros st Hb; simpl; [done|].
  apply IH. destruct a as [editor|editor|editor ev|]; simpl.
  - destruct (observing st); [|done]. by apply observeTextEditor_backed.
  - by apply observeTextEditor_backed.
  - by apply emit_backed.
  - by apply dispose_backed.
Qed.

(** In every state the adapter reaches from its constructor, an entry of
    [_editors] refers to an existing sync adapter of that very editor; and as
    long as the adapter was not disposed, that sync adapter is live, so
    [_editors] holds exactly the editors that have a live sync adapter. *)
Theorem registry_entries_are_backed
  (openEditors : list TextEditor) (documentSyncKind : Z)
  (editorSelector : TextEditor → bool)
  (actions : list DocumentSyncAdapter.Action) :
  let reached := run actions (new openEditors documentSyncKind editorSelector) in
  (∀ e ref,
     _editors (this reached) !! e = Some ref →
     ∃ sync, syncs reached !! ref = Some sync ∧ editorOf sync = e)
  ∧ (disposed (DocumentSyncAdapter._disposable (this reached)) = false →
     ∀ e ref, _editors (this reached) !! e = Some ref ↔ liveOn reached e ref).
Proof.
  intros reached.
  assert (registryBacked reached) as Hb by apply run_backed, new_backed.
  assert (consistent None reached) as Hc by apply run_consistent, new_consistent.
  split.
  - intros e ref Hentry. destruct (Hb e ref Hentry) as (s & ? & ? & _). eauto.
  - intros Hd e ref. split.
    + intros Hentry. destruct (Hb e ref Hentry) as (s & ? & ? & Hlive).
      exists s. auto.
    + intros (s & Hs & <- & Hlive).
      by apply (DocumentSyncAdapter.registered _ _ Hc).
Qed.

(** *** The constructor *)

Lemma foldl_observeTextEditor_not_disposed editors : ∀ st,
  disposed (DocumentSyncAdapter._disposable (this st)) = false →
  disposed (DocumentSyncAdapter._disposable
              (this (foldl (λ st editor, observeTextEditor editor st) st editors)))
  = false.
Proof.
  induction editors as [|editor rest IH]; intros st H0; simpl; [done|].
  apply IH. unfold DocumentSyncAdapter.observeTextEditor.
  destruct (_ && _); [|done].
  destruct (TextEditorSyncAdapter.new pathToUri editor _). simpl.
  by destruct (DocumentSyncAdapter._disposable (this st)).
Qed.

Lemma foldl_observeTextEditor editors : ∀ st,
  NoDup (id <$> editors) →
  (∀ editor, editor ∈ editors → _editors (this st) !! id editor = None) →
  let accepted := List.filter (_editorSelector (this st)) editors in
  let st' := foldl (λ st editor, observeTextEditor editor st) st editors in
  syncs st'
  = syncs st
    ++ ((λ editor,
           (TextEditorSyncAdapter.new pathToUri editor (_documentSyncKind (this st))).1)
          <$> accepted)
  ∧ connection st'
    = connection st
      ++ concat ((λ editor,
           (TextEditorSyncAdapter.new pathToUri editor (_documentSyncKind (this st))).2)
          <$> accepted)
  ∧ _editorSelector (this st') = _editorSelector (this st)
  ∧ _documentSyncKind (this st') = _documentSyncKind (this st)
  ∧ (∀ i editor, accepted !! i = Some editor →
       _editors (this st') !! id editor = Some (length (syncs st) + i)%nat)
  ∧ (∀ e, e ∉ id <$> accepted → _editors (this st') !! e = _editors (this st) !! e).
Proof.
  induction editors as [|editor rest IH]; intros st Hnd Hfresh; simpl.
  { rewrite !app_nil_r. by split_and!. }
  rewrite fmap_cons in Hnd. apply NoDup_cons in Hnd as [Hnotin Hnd].
  destruct (_editorSelector (this st) editor) eqn:Hsel.
  - assert (_editors (this st) !! id editor = None) as Hnone
      by (apply Hfresh; by left).
    pose proof (observeTextEditor_accepts pathToUri editor st Hnone Hsel) as Hobs.
    simpl in Hobs.
    remember (observeTextEditor editor st) as st1 eqn:Hst1. clear Hst1.
    assert (syncs st1
            = syncs st
              ++ [(TextEditorSyncAdapter.new pathToUri editor
                     (_documentSyncKind (this st))).1]
            ∧ connection st1
              = connection st
                ++ (TextEditorSyncAdapter.new pathToUri editor
                      (_documentSyncKind (this st))).2
            ∧ _editorSelector (this st1) = _editorSelector (this st)
            ∧ _documentSyncKind (this st1) = _documentSyncKind (this st)
            ∧ _editors (this st1)
              = <[id editor := length (syncs st)]> (_editors (this st)))
      as (Hs1 & Hc1 & Hsl1 & Hk1 & He1) by (by rewrite Hobs).
    clear Hobs.
    destruct (IH st1 Hnd) as (Hs & Hc & Hsl & Hk & Hreg & Hrest).
    { intros editor' Hin. rewrite He1.
      rewrite lookup_insert_ne; [apply Hfresh; by right|].
      intros Heq. apply Hnotin. rewrite Heq. apply list_elem_of_fmap. eauto. }
    rewrite Hs1, Hc1, Hsl1, Hk1, ?He1 in *.
    assert (id editor ∉ id <$> List.filter (_editorSelector (this st)) rest) as Hnotin'.
    { intros Hin. apply Hnotin.
      apply list_elem_of_fmap in Hin as (x & -> & Hx).
      apply list_elem_of_fmap. exists x. split; [done|].
      apply list_elem_of_In, List.filter_In in Hx as [Hx _].
      by apply list_elem_of_In. }
    split_and!.
    + rewrite Hs. simpl. by rewrite <- app_assoc.
    + rewrite Hc. simpl. by rewrite <- !app_assoc.
    + done.
    + done.
    + intros i editor' Hi. destruct i as [|i]; simpl in Hi.
      * injection Hi as <-. rewrite Hrest by done.
        rewrite lookup_insert_eq. f_equal. lia.
      * rewrite (Hreg i editor' Hi). rewrite length_app. simpl. f_equal. lia.
    + intros e He. simpl in He. apply not_elem_of_cons in He as [Hne He].
      rewrite Hrest by done. by rewrite lookup_insert_ne.
  - rewrite (observeTextEditor_skips pathToUri editor st) by (by right).
    apply IH; [done|]. intros editor' Hin. apply Hfresh. by right.
Qed.

(** Made while editors with distinct identities are open, the adapter has one
    sync adapter for every editor the selector accepts and none for the
    others, in the order of the editors; [_editors] maps each accepted editor
    to its sync adapter and holds nothing else; the connection has received
    what the constructors of the sync adapters send (the open notification of
    every accepted editor that has a URI), in that order, and nothing else;
    and the registry of text editors goes on calling the adapter. *)
Theorem constructor_observes_the_open_editors
  (openEditors : list TextEditor) (documentSyncKind : Z)
  (editorSelector : TextEditor → bool) :
  NoDup (id <$> openEditors) →
  let accepted := List.filter editorSelector openEditors in
  let st := new openEditors documentSyncKind editorSelector in
  syncs st
  = (λ editor, (TextEditorSyncAdapter.new pathToUri editor documentSyncKind).1)
      <$> accepted
  ∧ connection st
    = concat ((λ editor,
                 (TextEditorSyncAdapter.new pathToUri editor documentSyncKind).2)
                <$> accepted)
  ∧ (∀ i editor, accepted !! i = Some editor →
       _editors (this st) !! id editor = Some i)
  ∧ (∀ e, e ∉ id <$> accepted → _editors (this st) !! e = None)
  ∧ observing st = true
  ∧ disposed (DocumentSyncAdapter._disposable (this st)) = false.
Proof.
  intros Hnd accepted st. subst st. unfold DocumentSyncAdapter.new.
  match goal with |- context [foldl ?f ?x openEditors] =>
    destruct (foldl_observeTextEditor openEditors x Hnd)
      as (Hs & Hc & _ & _ & Hreg & Hrest); [done|] end.
  simpl in Hs, Hc, Hreg, Hrest.
  split_and!; try done.
  - simpl. match goal with |- disposed (composite_add _ ?c) = false =>
      assert (disposed c = false) as Hd; [|by destruct c] end.
    by apply foldl_observeTextEditor_not_disposed.
Qed.

(** *** Destroyed and observed again *)

(** When an editor that has a live sync adapter is destroyed and then
    observed again and accepted, it gets a new sync adapter, registered in
    place of the old one and starting again at version 1 with the
    notification of its own constructor; the old one stays disposed. *)
Theorem reobserved_editor_starts_again_at_version_1
  (openEditors : list TextEditor) (documentSyncKind : Z)
  (editorSelector : TextEditor → bool)
  (actions : list DocumentSyncAdapter.Action)
  (editor editor' : TextEditor) (ref : nat) :
  let reached := run actions (new openEditors documentSyncKind editorSelector) in
  let destroyed := emit editor DidDestroy reached in
  let again := observeTextEditor editor' destroyed in
  let made :=
    TextEditorSyncAdapter.new pathToUri editor' (_documentSyncKind (this reached)) in
  liveOn reached (id editor) ref →
  id editor' = id editor →
  _editorSelector (this reached) editor' = true →
  syncs again = syncs destroyed ++ [made.1]
  ∧ versionOf made.1 = 1
  ∧ _editors (this again) !! id editor = Some (length (syncs reached))
  ∧ liveOn again (id editor) (length (syncs reached))
  ∧ ¬ liveOn again (id editor) ref
  ∧ connection again = connection destroyed ++ made.2.
Proof.
  intros reached destroyed again made (s & Hs & He & Hlive) Hid Hsel.
  assert (consistent None reached) as Hc by apply run_consistent, new_consistent.
  assert (teardown ref ∈ listenersOf editor DidDestroy reached) as Hin.
  { apply listenersOf_teardown with (s := s); [done..|].
    by apply (DocumentSyncAdapter.hooked _ _ Hc ref s). }
  destruct (foldl_teardown pathToUri atomRangeToLSRange editor DidDestroy ref _
              reached Hin) as [Hgone _].
  fold (emit editor DidDestroy reached) in Hgone. fold destroyed in Hgone.
  destruct (foldl_frame editor DidDestroy (listenersOf editor DidDestroy reached)
              reached) as (Hsel' & Hkind' & _).
  fold (emit editor DidDestroy reached) in Hsel', Hkind'.
  fold destroyed in Hsel', Hkind'.
  assert (length (syncs destroyed) = length (syncs reached)) as Hlen.
  { symmetry. eapply Forall2_length.
    apply (foldl_later pathToUri atomRangeToLSRange). }
  assert (again
          = observeTextEditor editor' destroyed) as Hagain by done.
  rewrite observeTextEditor_accepts in Hagain by congruence.
  rewrite Hkind' in Hagain. fold made in Hagain.
  destruct (new_state pathToUri editor' (_documentSyncKind (this reached)))
    as (Hv & Hd & Hed & _). fold made in Hv, Hd, Hed.
  rewrite Hagain. simpl. rewrite <- Hid, Hlen. split_and!; [done|done| | | |done].
  - by rewrite lookup_insert_eq.
  - exists made.1. split_and!; [simpl|done|by rewrite Hd].
    rewrite <- Hlen. by rewrite lookup_app_r, Nat.sub_diag by lia.
  - intros (s' & Hs' & He' & Hlive'). simpl in Hs'.
    apply lookup_app_Some in Hs' as [Hs'|[Hge Hs']].
    + apply (emit_destroy_disposes pathToUri atomRangeToLSRange
               editor reached ref Hc).
      exists s'. split_and!; [done|congruence|done].
    + apply lookup_lt_Some in Hs. lia.
Qed.

End RegistryLaws.


(** * The further properties on sample runs *)

(** The never observed editor [Sample.untitled] beside the synchronised
    /a.ts: its save event sends nothing. *)
Lemma editor_without_live_sync_adapter_is_silent_witness :
  let st := DocumentSyncAdapter.new Sample.pathToUri [Sample.saved]
              TextDocumentSyncKind.Full Sample.acceptAll in
  DocumentSyncAdapter.connection
    (DocumentSyncAdapter.emit Sample.pathToUri Sample.atomRangeToLSRange
       Sample.untitled DidSave st)
  = DocumentSyncAdapter.connection st.
Proof.
  intros st.
  apply (editor_without_live_sync_adapter_is_silent Sample.pathToUri
           Sample.atomRangeToLSRange Sample.untitled DidSave st).
  intros ref (sync & Hsync & Heditor & _).
  destruct ref as [|ref]; vm_compute in Hsync; [|done].
  injection Hsync as <-. vm_compute in Heditor. done.
Defined.

(** The batch typed into /a.ts goes to its sync adapter: one change
    notification after the open notification. *)
Lemma event_is_handled_by_the_live_sync_adapter_witness :
  let st := DocumentSyncAdapter.new Sample.pathToUri [Sample.untitled; Sample.saved]
              TextDocumentSyncKind.Incremental Sample.acceptAll in
  let sync := (TextEditorSyncAdapter.new Sample.pathToUri Sample.saved
                 TextDocumentSyncKind.Incremental).1 in
  DocumentSyncAdapter.connection
    (DocumentSyncAdapter.emit Sample.pathToUri Sample.atomRangeToLSRange
       Sample.saved (DidChangeText {| changes := [Sample.typedX] |}) st)
  = DocumentSyncAdapter.connection st
    ++ (TextEditorSyncAdapter.emit Sample.pathToUri Sample.atomRangeToLSRange
          Sample.saved (DidChangeText {| changes := [Sample.typedX] |}) sync).2.
Proof.
  intros st sync.
  destruct (event_is_handled_by_the_live_sync_adapter Sample.pathToUri
              Sample.atomRangeToLSRange [Sample.untitled; Sample.saved]
              TextDocumentSyncKind.Incremental Sample.acceptAll []
              Sample.saved (DidChangeText {| changes := [Sample.typedX] |})
              1%nat sync) as [Hsent _];
    [vm_compute; reflexivity..|].
  exact Hsent.
Defined.

(** Disposed after a change to /a.ts, the adapter sends nothing when the
    editor changes again, is saved and destroyed, and when another editor is
    opened. *)
Lemma disposed_adapter_sends_nothing_more_witness :
  let reached :=
    DocumentSyncAdapter.run Sample.pathToUri Sample.atomRangeToLSRange
      [DocumentSyncAdapter.Emits Sample.saved DidChange]
      (DocumentSyncAdapter.new Sample.pathToUri [Sample.saved]
         TextDocumentSyncKind.Full Sample.acceptAll) in
  DocumentSyncAdapter.connection
    (DocumentSyncAdapter.run Sample.pathToUri Sample.atomRangeToLSRange
       [DocumentSyncAdapter.Emits Sample.saved DidChange;
        DocumentSyncAdapter.Opens Sample.untitled;
        DocumentSyncAdapter.Emits Sample.saved DidSave;
        DocumentSyncAdapter.Emits Sample.saved DidDestroy;
        DocumentSyncAdapter.Disposes]
       (DocumentSyncAdapter.dispose reached))
  = DocumentSyncAdapter.connection reached.
Proof.
  intros reached.
  destruct (disposed_adapter_sends_nothing_more Sample.pathToUri
              Sample.atomRangeToLSRange [Sample.saved]
              TextDocumentSyncKind.Full Sample.acceptAll
              [DocumentSyncAdapter.Emits Sample.saved DidChange]
              [DocumentSyncAdapter.Emits Sample.saved DidChange;
               DocumentSyncAdapter.Opens Sample.untitled;
               DocumentSyncAdapter.Emits Sample.saved DidSave;
               DocumentSyncAdapter.Emits Sample.saved DidDestroy;
               DocumentSyncAdapter.Disposes])
    as (_ & Hsent & _); [reflexivity..|].
  exact Hsent.
Defined.

(** Made while the unsaved editor and /a.ts are open, the adapter has a sync
    adapter for each and has sent the one open notification of /a.ts. *)
Lemma constructor_observes_the_open_editors_witness :
  let st := DocumentSyncAdapter.new Sample.pathToUri [Sample.untitled; Sample.saved]
              TextDocumentSyncKind.Full Sample.acceptAll in
  length (DocumentSyncAdapter.syncs st) = 2%nat
  ∧ DocumentSyncAdapter.connection st
    = [didOpenTextDocument
         {| item_uri := "file:///a.ts"; item_languageId := "typescript";
            item_version := 1; item_text := "let a" |}]
  ∧ DocumentSyncAdapter._editors (DocumentSyncAdapter.this st) !! id Sample.saved
    = Some 1%nat.
Proof.
  intros st.
  destruct (constructor_observes_the_open_editors Sample.pathToUri
              [Sample.untitled; Sample.saved] TextDocumentSyncKind.Full
              Sample.acceptAll) as (Hsyncs & Hsent & Hreg & _).
  { apply NoDup_cons. split; [|apply NoDup_singleton].
    by intros [=]%list_elem_of_singleton. }
  fold st in Hsyncs, Hsent, Hreg. split_and!.
  - by rewrite Hsyncs.
  - by rewrite Hsent.
  - exact (Hreg 1%nat Sample.saved eq_refl).
Defined.

(** /a.ts destroyed and observed again: a second sync adapter, registered
    under the editor, at version 1. *)
Lemma reobserved_editor_starts_again_at_version_1_witness :
  let reached := DocumentSyncAdapter.new Sample.pathToUri [Sample.saved]
                   TextDocumentSyncKind.Full Sample.acceptAll in
  let again :=
    DocumentSyncAdapter.observeTextEditor Sample.pathToUri Sample.saved
      (DocumentSyncAdapter.emit Sample.pathToUri Sample.atomRangeToLSRange
         Sample.saved DidDestroy reached) in
  DocumentSyncAdapter._editors (DocumentSyncAdapter.this again) !! id Sample.saved
  = Some 1%nat
  ∧ DocumentSyncAdapter.liveOn again (id Sample.saved) 1
  ∧ ¬ DocumentSyncAdapter.liveOn again (id Sample.saved) 0.
Proof.
  intros reached again.
  destruct (reobserved_editor_starts_again_at_version_1 Sample.pathToUri
              Sample.atomRangeToLSRange [Sample.saved]
              TextDocumentSyncKind.Full Sample.acceptAll []
              Sample.saved Sample.saved 0%nat)
    as (_ & _ & Hreg & Hnew & Hold & _); [|reflexivity..|].
  { eexists. split_and!; vm_compute; reflexivity. }
  split_and!; [exact Hreg|exact Hnew|exact Hold].
Defined.
